(** * Tokenizer API: the backend helpers of [backend/main.py]

    A shallow embedding of the three helper functions of the FastAPI
    backend ([tokenize_text_helper], [get_vocabulary_helper],
    [get_stats_helper]) and of the endpoints that wrap them, together
    with the properties the specification states about them.

    The tokenizer itself ([tiktoken]) is an external library: its
    encodings are modelled by the record [Encoding], and the two
    registry functions [tiktoken.get_encoding] and
    [tiktoken.encoding_for_model] are parameters of the development. *)

From Stdlib Require Import String.
From Stdlib Require Import ZArith NArith List Ascii Lia Sorted.
From stdpp Require Import base tactics option list list_numbers.

Open Scope Z_scope.

(** ** Python values *)

(** A Python [str] is a sequence of Unicode code points; [len] counts
    code points. *)
Definition str := list N.

Definition str_of_string (s : string) : str :=
  map N_of_ascii (list_ascii_of_string s).

Definition len {A} (l : list A) : Z := Z.of_nat (length l).

(** Exceptions, all of them subclasses of Python's [Exception]. *)
Inductive exn :=
| KeyError
| ValueError
| OverflowError
| UnicodeEncodeError.

(** A computation either returns a value or raises. *)
Inductive result (A : Type) :=
| Ok (a : A)
| Raise (e : exn).
Arguments Ok {A} a.
Arguments Raise {A} e.

#[global] Instance result_ret : MRet result := λ A a, Ok a.
#[global] Instance result_bind : MBind result := λ A B f m,
  match m with
  | Ok a => f a
  | Raise e => Raise e
  end.

(** [try: body except Exception: handler] *)
Definition try_except {A} (body : result A) (handler : exn → result A) : result A :=
  match body with
  | Ok a => Ok a
  | Raise e => handler e
  end.

(** [for x in xs: acc = body acc x], stopping at the first exception. *)
Fixpoint for_each {A B} (body : A → B → result A) (xs : list B) (acc : A) : result A :=
  match xs with
  | [] => Ok acc
  | x :: xs' => acc' ← body acc x; for_each body xs' acc'
  end.

(** [[f(x) for x in xs]] *)
Fixpoint comprehension {A B} (f : A → result B) (xs : list A) : result (list B) :=
  match xs with
  | [] => Ok []
  | x :: xs' => y ← f x; ys ← comprehension f xs'; mret (y :: ys)
  end.

(** [range(start, stop)] *)
Definition range (start stop : Z) : list Z := seqZ start (stop - start).

(** [enumerate(xs)]; Python's [zip(xs, ys)] is stdpp's [zip], which
    also stops at the end of the shorter list. *)
Definition enumerate {A} (xs : list A) : list (Z * A) :=
  zip (seqZ 0 (len xs)) xs.

(** [p in s] on strings: [p] occurs in [s] as a contiguous run. *)
Fixpoint startswith (s p : str) {struct p} : bool :=
  match p, s with
  | [], _ => true
  | _ :: _, [] => false
  | c :: p', d :: s' => (c =? d)%N && startswith s' p'
  end.

Fixpoint str_in (p s : str) : bool :=
  startswith s p ||
  match s with
  | [] => false
  | _ :: s' => str_in p s'
  end.

(** [s.encode('utf-8')]: lone surrogates cannot be encoded. *)
Definition utf8_encode_char (c : N) : result (list N) :=
  (if c <? 0x80 then Ok [c]
   else if c <? 0x800 then
     Ok [N.lor 0xC0 (N.shiftr c 6); N.lor 0x80 (N.land c 0x3F)]
   else if c <? 0x10000 then
     if (0xD800 <=? c) && (c <=? 0xDFFF) then Raise UnicodeEncodeError
     else Ok [N.lor 0xE0 (N.shiftr c 12);
              N.lor 0x80 (N.land (N.shiftr c 6) 0x3F);
              N.lor 0x80 (N.land c 0x3F)]
   else if c <? 0x110000 then
     Ok [N.lor 0xF0 (N.shiftr c 18);
         N.lor 0x80 (N.land (N.shiftr c 12) 0x3F);
         N.lor 0x80 (N.land (N.shiftr c 6) 0x3F);
         N.lor 0x80 (N.land c 0x3F)]
   else Raise UnicodeEncodeError)%N.

Fixpoint utf8_encode (s : str) : result (list N) :=
  match s with
  | [] => Ok []
  | c :: s' => b ← utf8_encode_char c; bs ← utf8_encode s'; mret (b ++ bs)
  end.

(** ** The external tokenizer *)

(** A [tiktoken.Encoding] object: its name, its vocabulary size, and its
    [encode] and [decode] methods, either of which may raise. *)
Record Encoding := {
  name : str;
  n_vocab : Z;
  encode : str → result (list Z);
  decode : list Z → result str;
}.

(** ** Response bodies *)

Module TokenDetail.
Record t := mk {
  position : Z;
  token_id : Z;
  token_string : str;
  byte_length : Z;
}.
End TokenDetail.

Module TokenizeResult.
Record t := mk {
  tokens : list Z;
  token_strings : list str;
  count : Z;
  token_details : list TokenDetail.t;
  model : str;
  original_text : str;
}.
End TokenizeResult.

Module VocabEntry.
Record t := mk {
  token_id : Z;
  token_string : str;
  length : Z;
}.
End VocabEntry.

Module VocabularyPage.
Record t := mk {
  vocabulary : list VocabEntry.t;
  total_size : Z;
  showing_start : Z;
  showing_end : Z;
  count : Z;
  search_term : str;
}.
End VocabularyPage.

Module Stats.
Record t := mk {
  encoding_name : str;
  total_tokens : Z;
  description : str;
  supported_models : list str;
}.
End Stats.

(** ** Request models *)

Module TokenizeRequest.
Record t := mk {
  text : str;
  model : str;
}.
End TokenizeRequest.

Module VocabularyRequest.
Record t := mk {
  start : Z;
  limit : Z;
  search : str;
}.
End VocabularyRequest.

(** What an endpoint answers: the helper's dictionary, or the
    [HTTPException] it raises instead. *)
Inductive response (A : Type) :=
| Success (body : A)
| HTTPException (status_code : Z) (detail : exn).
Arguments Success {A} body.
Arguments HTTPException {A} status_code detail.

Definition SPECIAL_TOKEN : str := Eval cbv in str_of_string "[SPECIAL_TOKEN]"%string.
Definition cl100k_base_name : str := Eval cbv in str_of_string "cl100k_base"%string.
Definition stats_description : str :=
  Eval cbv in str_of_string "GPT-3.5/GPT-4 vocabulary (cl100k_base)"%string.
Definition stats_supported_models : list str :=
  Eval cbv in map str_of_string ["gpt-3.5-turbo"; "gpt-4"; "gpt-4-turbo"]%string.

(** ** The helpers and the endpoints *)

Section Backend.

(** [tiktoken.get_encoding] and [tiktoken.encoding_for_model]. *)
Variable get_encoding : str → result Encoding.
Variable encoding_for_model : str → result Encoding.

(** [str.lower]: Python's Unicode lower-casing, whose table is part of
    the interpreter. *)
Variable lower : str → str.

(** The body of the loop of [tokenize_text_helper]. *)
Definition append_detail (token_details : list TokenDetail.t)
    (item : Z * (Z * str)) : result (list TokenDetail.t) :=
  let '(idx, (token_id, token_str)) := item in
  encoded ← utf8_encode token_str;
  mret (token_details ++
        [ {| TokenDetail.position := idx + 1;
             TokenDetail.token_id := token_id;
             TokenDetail.token_string := token_str;
             TokenDetail.byte_length := len encoded |} ]).

Definition tokenize_text_helper (text model : str) : result TokenizeResult.t :=
  encoding ← encoding_for_model model;
  tokens ← encode encoding text;
  token_strings ← comprehension (λ token, decode encoding [token]) tokens;
  token_details ← for_each append_detail (enumerate (zip tokens token_strings)) [];
  mret {| TokenizeResult.tokens := tokens;
          TokenizeResult.token_strings := token_strings;
          TokenizeResult.count := len tokens;
          TokenizeResult.token_details := token_details;
          TokenizeResult.model := model;
          TokenizeResult.original_text := text |}.

Definition placeholder (i : Z) : VocabEntry.t :=
  {| VocabEntry.token_id := i;
     VocabEntry.token_string := SPECIAL_TOKEN;
     VocabEntry.length := 0 |}.

Definition entry (i : Z) (token_str : str) : VocabEntry.t :=
  {| VocabEntry.token_id := i;
     VocabEntry.token_string := token_str;
     VocabEntry.length := len token_str |}.

(** The body of the loop of [get_vocabulary_helper], with its
    [try]/[except]. *)
Definition vocab_step (encoding : Encoding) (search : str)
    (vocab_list : list VocabEntry.t) (i : Z) : result (list VocabEntry.t) :=
  try_except
    (token_str ← decode encoding [i];
     if bool_decide (search = []) || str_in (lower search) (lower token_str)
     then mret (vocab_list ++ [entry i token_str])
     else mret vocab_list)
    (λ _,
     if bool_decide (search = [])
     then mret (vocab_list ++ [placeholder i])
     else mret vocab_list).

Definition get_vocabulary_helper (start limit : Z) (search : str)
    : result VocabularyPage.t :=
  encoding ← get_encoding cl100k_base_name;
  let total_vocab_size := n_vocab encoding in
  let end_ := Z.min (start + limit) total_vocab_size in
  vocab_list ← for_each (vocab_step encoding search) (range start end_) [];
  mret {| VocabularyPage.vocabulary := vocab_list;
          VocabularyPage.total_size := total_vocab_size;
          VocabularyPage.showing_start := start;
          VocabularyPage.showing_end := end_;
          VocabularyPage.count := len vocab_list;
          VocabularyPage.search_term := search |}.

Definition get_stats_helper (_ : unit) : result Stats.t :=
  encoding ← get_encoding cl100k_base_name;
  mret {| Stats.encoding_name := name encoding;
          Stats.total_tokens := n_vocab encoding;
          Stats.description := stats_description;
          Stats.supported_models := stats_supported_models |}.

(** The endpoints: every exception of the helper becomes an
    [HTTPException]. *)
Definition endpoint {A} (status_code : Z) (r : result A) : response A :=
  match r with
  | Ok body => Success body
  | Raise e => HTTPException status_code e
  end.

Definition tokenize_text (request : TokenizeRequest.t) : response TokenizeResult.t :=
  endpoint 400 (tokenize_text_helper (TokenizeRequest.text request)
                                     (TokenizeRequest.model request)).

Definition get_vocabulary (request : VocabularyRequest.t) : response VocabularyPage.t :=
  endpoint 400 (get_vocabulary_helper (VocabularyRequest.start request)
                                      (VocabularyRequest.limit request)
                                      (VocabularyRequest.search request)).

Definition get_stats (_ : unit) : response Stats.t :=
  endpoint 500 (get_stats_helper tt).

End Backend.

(** The entries one ID of the window contributes to the page: what
    [vocab_step] appends for it. *)
Definition emitted (lower : str → str) (encoding : Encoding) (search : str)
    (i : Z) : list VocabEntry.t :=
  match decode encoding [i] with
  | Ok token_str =>
      if bool_decide (search = []) || str_in (lower search) (lower token_str)
      then [entry i token_str] else []
  | Raise _ =>
      if bool_decide (search = []) then [placeholder i] else []
  end.

(** A placeholder is recognised by its marker string and its length 0. *)
Definition is_placeholder (x : VocabEntry.t) : Prop :=
  VocabEntry.token_string x = SPECIAL_TOKEN ∧ VocabEntry.length x = 0.

(** The record [append_detail] builds for one item of
    [enumerate(zip(tokens, token_strings))]. *)
Definition detail_of (item : Z * (Z * str)) : result TokenDetail.t :=
  let '(idx, (token_id, token_str)) := item in
  encoded ← utf8_encode token_str;
  mret {| TokenDetail.position := idx + 1;
          TokenDetail.token_id := token_id;
          TokenDetail.token_string := token_str;
          TokenDetail.byte_length := len encoded |}.

(** A token the tokenize service can report: it decodes on its own, to
    a string that has a UTF-8 form. *)
Definition reportable (encoding : Encoding) (token : Z) : Prop :=
  ∃ s bs, decode encoding [token] = Ok s ∧ utf8_encode s = Ok bs.

(** ** Two small encoders to run the helpers on *)

Module Demo.

Definition REPLACEMENT : N := 0xFFFD.

Definition is_cont (b : N) : bool := ((0x80 <=? b) && (b <=? 0xBF))%N.

Definition second_ok (b c : N) : bool :=
  (if b =? 0xE0 then (0xA0 <=? c) && (c <=? 0xBF)
   else if b =? 0xED then (0x80 <=? c) && (c <=? 0x9F)
   else if b =? 0xF0 then (0x90 <=? c) && (c <=? 0xBF)
   else if b =? 0xF4 then (0x80 <=? c) && (c <=? 0x8F)
   else is_cont c)%N.

Definition low6 (b : N) : N := N.land b 0x3F.

(** [bytes.decode('utf-8', errors='replace')]: every ill-formed run
    becomes one U+FFFD and decoding resumes after it. *)
Fixpoint utf8_decode_replace (bs : list N) : str :=
  match bs with
  | [] => []
  | b :: r =>
    if (b <? 0x80)%N then b :: utf8_decode_replace r
    else if ((0xC2 <=? b) && (b <=? 0xDF))%N then
      match r with
      | [] => [REPLACEMENT]
      | c1 :: r1 =>
        if is_cont c1
        then N.lor (N.shiftl (N.land b 0x1F) 6) (low6 c1) :: utf8_decode_replace r1
        else REPLACEMENT :: utf8_decode_replace r
      end
    else if ((0xE0 <=? b) && (b <=? 0xEF))%N then
      match r with
      | [] => [REPLACEMENT]
      | c1 :: r1 =>
        if second_ok b c1 then
          match r1 with
          | [] => [REPLACEMENT]
          | c2 :: r2 =>
            if is_cont c2
            then N.lor (N.shiftl (N.land b 0x0F) 12)
                   (N.lor (N.shiftl (low6 c1) 6) (low6 c2))
                 :: utf8_decode_replace r2
            else REPLACEMENT :: utf8_decode_replace r1
          end
        else REPLACEMENT :: utf8_decode_replace r
      end
    else if ((0xF0 <=? b) && (b <=? 0xF4))%N then
      match r with
      | [] => [REPLACEMENT]
      | c1 :: r1 =>
        if second_ok b c1 then
          match r1 with
          | [] => [REPLACEMENT]
          | c2 :: r2 =>
            if is_cont c2 then
              match r2 with
              | [] => [REPLACEMENT]
              | c3 :: r3 =>
                if is_cont c3
                then N.lor (N.shiftl (N.land b 0x07) 18)
                       (N.lor (N.shiftl (low6 c1) 12)
                          (N.lor (N.shiftl (low6 c2) 6) (low6 c3)))
                     :: utf8_decode_replace r3
                else REPLACEMENT :: utf8_decode_replace r2
              end
            else REPLACEMENT :: utf8_decode_replace r1
          end
        else REPLACEMENT :: utf8_decode_replace r
      end
    else REPLACEMENT :: utf8_decode_replace r
  end.

(** A byte-level vocabulary without merges: token [b], for
    [0 <= b < 256], is the single byte [b]; the IDs 256..259 are
    reserved and have no text. Negative IDs are refused before the
    table is consulted. *)
Definition byte_of_token (t : Z) : result N :=
  if t <? 0 then Raise OverflowError
  else if t <? 256 then Ok (Z.to_N t)
  else Raise KeyError.

Definition byte_level : Encoding := {|
  name := cl100k_base_name;
  n_vocab := 260;
  encode := λ text,
    mbind (M := result) (λ bs : list N, mret (Z.of_N <$> bs)) (utf8_encode text);
  decode := λ tokens,
    mbind (M := result) (λ bs : list N, mret (utf8_decode_replace bs))
          (comprehension byte_of_token tokens);
|}.

(** A character-level vocabulary for ASCII text: token [c] is the
    character [c]. *)
Definition char_of_token (t : Z) : result N :=
  if t <? 0 then Raise OverflowError
  else if t <? 128 then Ok (Z.to_N t)
  else Raise KeyError.

Definition token_of_char (c : N) : result Z :=
  if (c <? 128)%N then Ok (Z.of_N c) else Raise ValueError.

Definition char_level_name : str := Eval cbv in str_of_string "ascii"%string.

Definition char_level : Encoding := {|
  name := char_level_name;
  n_vocab := 128;
  encode := comprehension token_of_char;
  decode := comprehension char_of_token;
|}.

Definition get_encoding (encoding_name : str) : result Encoding :=
  if bool_decide (encoding_name = cl100k_base_name) then Ok byte_level
  else Raise ValueError.

Definition encoding_for_model (model_name : str) : result Encoding :=
  if bool_decide (model_name ∈ stats_supported_models) then Ok byte_level
  else Raise KeyError.

Definition ascii_for_model (model_name : str) : result Encoding :=
  if bool_decide (model_name ∈ stats_supported_models) then Ok char_level
  else Raise KeyError.

(** Lower-casing of the ASCII letters. *)
Definition lower (s : str) : str :=
  (λ c, if (65 <=? c) && (c <=? 90) then c + 32 else c)%N <$> s.

Definition gpt_4 : str := Eval cbv in str_of_string "gpt-4"%string.

End Demo.

(** ** Encoders that decode bytes *)

(** An encoder that decodes the way [tiktoken] does: every token stands
    for a byte string ([token_bytes], the table behind
    [decode_single_token_bytes]); the byte strings of a sequence are
    concatenated and decoded as UTF-8, every ill-formed run replaced by
    U+FFFD ([bytes.decode('utf-8', errors='replace')], which is
    [Demo.utf8_decode_replace]). *)
Definition decodes_bytes (encoding : Encoding)
    (token_bytes : Z → result (list N)) : Prop :=
  ∀ tokens,
    decode encoding tokens
    = (bss ← comprehension token_bytes tokens;
       mret (Demo.utf8_decode_replace (concat bss))).

(** A token made of whole characters: its bytes are the UTF-8 form of
    a string, so no character is split between it and its neighbours. *)
Definition whole_characters (token_bytes : Z → result (list N))
    (token : Z) : Prop :=
  ∃ s bs, token_bytes token = Ok bs ∧ utf8_encode s = Ok bs.

(** The table of [Demo.byte_level]: one byte per token. *)
Definition byte_level_table (token : Z) : result (list N) :=
  mbind (M := result) (λ b : N, mret [b]) (Demo.byte_of_token token).

(** ** The client's token display ([frontend/app.py]) *)

(** [s.replace(old, new)]: the occurrences of [old] are replaced from
    left to right, without overlap; [skip] counts the characters of an
    occurrence that are still to be passed over. An empty [old] matches
    before every character and at the end. *)
Fixpoint replace_from (old new : str) (skip : nat) (s : str) : str :=
  match s with
  | [] => []
  | c :: s' =>
    match skip with
    | S k => replace_from old new k s'
    | O =>
      if startswith s old
      then new ++ replace_from old new (length old - 1) s'
      else c :: replace_from old new 0 s'
    end
  end.

Definition replace (old new s : str) : str :=
  match old with
  | [] => new ++ (s ≫= λ c, c :: new)
  | _ :: _ => replace_from old new 0 s
  end.

Definition SPACE : N := 32.
Definition NEWLINE : N := 10.
(** The characters U+2423 (open box) and U+21B5 (return arrow). *)
Definition OPEN_BOX : N := 0x2423.
Definition RETURN_ARROW : N := 0x21B5.

(** The markup around a token: an opening [span] tag with the class
    [token-box] (the 11 characters of [<span class=], a quoted
    [token-box] and [>]) and the closing tag. *)
Definition SPAN_OPEN : str :=
  Eval cbv in str_of_string "<span class=" ++ [34%N]
              ++ str_of_string "token-box" ++ [34%N] ++ str_of_string ">".
Definition SPAN_CLOSE : str := Eval cbv in str_of_string "</span>".

Definition display_token (token : str) : str :=
  replace [NEWLINE] [RETURN_ARROW] (replace [SPACE] [OPEN_BOX] token).

(** The loop that builds [tokens_html] from [data["token_strings"]]. *)
Definition tokens_html (token_strings : list str) : str :=
  fold_left
    (λ tokens_html token,
       tokens_html ++ (SPAN_OPEN ++ display_token token ++ SPAN_CLOSE))
    token_strings [].

(** The vocabulary form of the client: the two [st.number_input]
    widgets keep [start] within 0..100000 and [limit] within 10..500;
    the search box takes any text. *)
Definition client_can_send (request : VocabularyRequest.t) : Prop :=
  0 ≤ VocabularyRequest.start request ≤ 100000
  ∧ 10 ≤ VocabularyRequest.limit request ≤ 500.

(** * Properties *)

(** ** Python values *)

Lemma startswith_spec (s p : str) :
  startswith s p = true ↔ ∃ post, s = p ++ post.
Proof.
  revert s. induction p as [|c p IH]; intros [|d s]; simpl.
  - split; [by exists [] | done].
  - split; [by exists (d :: s) | done].
  - split; [done | intros [post Hpost]; discriminate].
  - rewrite andb_true_iff, N.eqb_eq, IH. split.
    + intros [-> [post ->]]. by exists post.
    + intros [post Hpost]. injection Hpost as -> ->. eauto.
Qed.

(** [str_in p s] holds exactly when [p] is a substring of [s]. *)
Lemma str_in_spec (p s : str) :
  str_in p s = true ↔ ∃ pre post, s = pre ++ p ++ post.
Proof.
  induction s as [|d s IH]; simpl.
  - rewrite orb_false_r, startswith_spec. split.
    + intros [post Hpost]. by exists [], post.
    + intros (pre & post & Hs). symmetry in Hs.
      apply app_eq_nil in Hs as [-> Hs]. apply app_eq_nil in Hs as [-> ->].
      by exists [].
  - rewrite orb_true_iff, startswith_spec, IH. split.
    + intros [[post Hpost] | (pre & post & ->)].
      * by exists [], post.
      * by exists (d :: pre), post.
    + intros (pre & post & Hs). destruct pre as [|d' pre]; simpl in Hs.
      * left. eauto.
      * right. injection Hs as -> ->. eauto.
Qed.

Lemma range_elem_of (start stop i : Z) : i ∈ range start stop ↔ start ≤ i < stop.
Proof. unfold range. rewrite elem_of_seqZ. lia. Qed.

Lemma range_nil (start stop : Z) : stop ≤ start → range start stop = [].
Proof. intros. unfold range. apply seqZ_nil. lia. Qed.

Lemma range_length (start stop : Z) : len (range start stop) = Z.max 0 (stop - start).
Proof. unfold len, range. rewrite length_seqZ. lia. Qed.

Lemma seqZ_ascending (m n : Z) : StronglySorted Z.lt (seqZ m n).
Proof.
  destruct (decide (n ≤ 0)) as [Hn|Hn]; [rewrite seqZ_nil by done; constructor|].
  rewrite <- (Z2Nat.id n) by lia. generalize (Z.to_nat n) as k. clear n Hn.
  intros k. revert m. induction k as [|k IH]; intros m.
  - rewrite seqZ_nil by done. constructor.
  - rewrite seqZ_cons by lia. constructor.
    + replace (Z.pred (Z.of_nat (S k))) with (Z.of_nat k) by lia. apply IH.
    + apply Forall_seqZ. lia.
Qed.

Lemma StronglySorted_sublist {A} (R : relation A) (l k : list A) :
  l `sublist_of` k → StronglySorted R k → StronglySorted R l.
Proof.
  induction 1 as [|x l k Hsub IH|x l k Hsub IH]; intros Hk.
  - constructor.
  - apply StronglySorted_inv in Hk as [Hk Hx]. constructor; [by apply IH|].
    rewrite Forall_forall in Hx |- *. intros y Hy.
    apply Hx. by eapply elem_of_sublist.
  - apply StronglySorted_inv in Hk as [Hk _]. by apply IH.
Qed.

(** ** The vocabulary page builder *)

Section Vocabulary.

Variable get_encoding : str → result Encoding.
Variable lower : str → str.
Variable encoding : Encoding.
Hypothesis registry : get_encoding cl100k_base_name = Ok encoding.

Local Abbreviation helper := (get_vocabulary_helper get_encoding lower).

Lemma vocab_step_emitted search vocab_list i :
  vocab_step lower encoding search vocab_list i
  = Ok (vocab_list ++ emitted lower encoding search i).
Proof.
  unfold vocab_step, emitted, try_except.
  destruct (decode encoding [i]) as [token_str|e]; simpl.
  - destruct (_ || _); simpl; by rewrite ?app_nil_r.
  - destruct (bool_decide _); simpl; by rewrite ?app_nil_r.
Qed.

Lemma for_each_vocab_step search xs vocab_list :
  for_each (vocab_step lower encoding search) xs vocab_list
  = Ok (vocab_list ++ (xs ≫= emitted lower encoding search)).
Proof.
  revert vocab_list. induction xs as [|i xs IH]; intros vocab_list; simpl.
  - by rewrite app_nil_r.
  - rewrite vocab_step_emitted. simpl. rewrite IH. by rewrite <- app_assoc.
Qed.

(** The helper never raises, and its page is the window's IDs with
    what each of them contributes. *)
Lemma get_vocabulary_helper_eq start limit search :
  helper start limit search =
  Ok {| VocabularyPage.vocabulary :=
          range start (Z.min (start + limit) (n_vocab encoding))
            ≫= emitted lower encoding search;
        VocabularyPage.total_size := n_vocab encoding;
        VocabularyPage.showing_start := start;
        VocabularyPage.showing_end := Z.min (start + limit) (n_vocab encoding);
        VocabularyPage.count :=
          len (range start (Z.min (start + limit) (n_vocab encoding))
                 ≫= emitted lower encoding search);
        VocabularyPage.search_term := search |}.
Proof.
  unfold get_vocabulary_helper. rewrite registry. simpl.
  by rewrite for_each_vocab_step.
Qed.

Lemma emitted_token_id search i x :
  x ∈ emitted lower encoding search i → VocabEntry.token_id x = i.
Proof.
  unfold emitted. destruct (decode encoding [i]); destruct (_ : bool);
    intros Hx; by (apply list_elem_of_singleton in Hx as -> || inversion Hx).
Qed.

Lemma emitted_ids_sublist search xs :
  (VocabEntry.token_id <$> (xs ≫= emitted lower encoding search)) `sublist_of` xs.
Proof.
  induction xs as [|i xs IH]; [constructor|].
  rewrite bind_cons, fmap_app.
  assert (VocabEntry.token_id <$> emitted lower encoding search i = [i]
          ∨ emitted lower encoding search i = []) as [-> | ->].
  { unfold emitted. destruct (decode encoding [i]); destruct (_ : bool); auto. }
  - by constructor.
  - by constructor.
Qed.

Lemma elem_of_page search start stop x :
  x ∈ range start stop ≫= emitted lower encoding search ↔
  start ≤ VocabEntry.token_id x < stop
  ∧ x ∈ emitted lower encoding search (VocabEntry.token_id x).
Proof.
  rewrite list_elem_of_bind. setoid_rewrite range_elem_of. split.
  - intros (i & Hx & Hi). by rewrite (emitted_token_id _ _ _ Hx).
  - intros [Hi Hx]. eauto.
Qed.

End Vocabulary.

(** Runs the helper: the goal [∃ page, helper ... = Ok page ∧ P page]
    becomes [P] of the page the helper returns. *)
Ltac run_helper registry :=
  rewrite (get_vocabulary_helper_eq _ _ _ registry);
  eexists; split; [reflexivity | simpl].

Section PageBuilder.

Variable get_encoding : str → result Encoding.
Variable lower : str → str.

Local Abbreviation helper := (get_vocabulary_helper get_encoding lower).

Lemma emitted_empty_search_ids encoding xs :
  VocabEntry.token_id <$> (xs ≫= emitted lower encoding []) = xs.
Proof.
  induction xs as [|i xs IH]; [done|].
  rewrite bind_cons, fmap_app, IH. unfold emitted.
  by destruct (decode encoding [i]).
Qed.

(** C1. With [start >= 0] and [limit > 0] the page reports
    [showing_start = start] and [showing_end = min(start+limit, total_size)],
    [total_size] being the vocabulary size of the encoder, whatever the
    search string and whatever the encoder decodes. *)
Theorem window_is_reported encoding start limit search :
  get_encoding cl100k_base_name = Ok encoding →
  0 ≤ start → 0 < limit →
  ∃ page, helper start limit search = Ok page
    ∧ VocabularyPage.total_size page = n_vocab encoding
    ∧ VocabularyPage.showing_start page = start
    ∧ VocabularyPage.showing_end page
      = Z.min (start + limit) (VocabularyPage.total_size page).
Proof.
  intros registry _ _. by run_helper registry.
Qed.

(** C2, as the code has it. With [start >= total_size] no error is
    raised and the vocabulary list is empty; [showing_start] is [start]
    and [showing_end] is [min(start+limit, total_size)], which is
    [total_size] for every [limit >= 0] and so equals [start] only when
    [start = total_size]. *)
Theorem start_past_the_end encoding start limit search :
  get_encoding cl100k_base_name = Ok encoding →
  n_vocab encoding ≤ start →
  ∃ page, helper start limit search = Ok page
    ∧ VocabularyPage.vocabulary page = []
    ∧ VocabularyPage.count page = 0
    ∧ VocabularyPage.showing_start page = start
    ∧ VocabularyPage.showing_end page = Z.min (start + limit) (n_vocab encoding)
    ∧ (0 ≤ limit → VocabularyPage.showing_end page = n_vocab encoding)
    ∧ (0 ≤ limit →
       VocabularyPage.showing_end page = start ↔ start = n_vocab encoding).
Proof.
  intros registry Hstart. run_helper registry.
  rewrite range_nil by lia. repeat split; try done; lia.
Qed.

(** C3. An ID of the scanned window [start, min(start+limit, vocabSize))
    whose decode raises contributes a placeholder (the marker string,
    length 0) exactly when the search string is empty, and nothing else;
    the helper returns normally; and a page built with a non-empty
    search holds no placeholder. *)
Theorem special_tokens_policy encoding start limit search :
  get_encoding cl100k_base_name = Ok encoding →
  ∃ page, helper start limit search = Ok page
    ∧ (∀ i e,
         start ≤ i < Z.min (start + limit) (n_vocab encoding) →
         decode encoding [i] = Raise e →
         (VocabEntry.mk i SPECIAL_TOKEN 0 ∈ VocabularyPage.vocabulary page
          ↔ search = [])
         ∧ (∀ x, x ∈ VocabularyPage.vocabulary page →
                 VocabEntry.token_id x = i →
                 x = VocabEntry.mk i SPECIAL_TOKEN 0))
    ∧ (search ≠ [] →
       ∀ x, x ∈ VocabularyPage.vocabulary page → ¬ is_placeholder x).
Proof.
  intros registry. run_helper registry. split.
  - intros i e Hi Hdec. split.
    + rewrite elem_of_page. simpl. unfold emitted. rewrite Hdec.
      case_bool_decide as Hs.
      * split; [done|]. intros _. split; [done|]. by apply list_elem_of_here.
      * split; [|done]. intros [_ Hx]. inversion Hx.
    + intros x Hx Hid. apply elem_of_page in Hx as [_ Hx].
      rewrite Hid in Hx. unfold emitted in Hx. rewrite Hdec in Hx.
      case_bool_decide; [|inversion Hx].
      by apply list_elem_of_singleton in Hx.
  - intros Hs x Hx [Hmarker Hlen]. apply elem_of_page in Hx as [_ Hx].
    unfold emitted in Hx.
    rewrite (bool_decide_eq_false_2 _ Hs) in Hx. simpl in Hx.
    destruct (decode encoding [VocabEntry.token_id x]) as [token_str|e];
      [|inversion Hx].
    destruct (str_in _ _); [|inversion Hx].
    apply list_elem_of_singleton in Hx.
    pose proof (f_equal VocabEntry.token_string Hx) as Hstr.
    pose proof (f_equal VocabEntry.length Hx) as Hl. simpl in Hstr, Hl.
    rewrite Hl, <- Hstr, Hmarker in Hlen. discriminate Hlen.
Qed.

(** C4. An ID of the scanned window [start, min(start+limit, vocabSize))
    that decodes to [s] is on the page exactly when the search string is
    empty or its lower-cased form is a substring of the lower-cased [s];
    its entry carries the ID, [s] and the number of characters of [s]. *)
Theorem decoded_tokens_filter encoding start limit search :
  get_encoding cl100k_base_name = Ok encoding →
  ∃ page, helper start limit search = Ok page
    ∧ ∀ i s,
        start ≤ i < Z.min (start + limit) (n_vocab encoding) →
        decode encoding [i] = Ok s →
        (VocabEntry.mk i s (len s) ∈ VocabularyPage.vocabulary page
         ↔ search = [] ∨ ∃ pre post, lower s = pre ++ lower search ++ post)
        ∧ (∀ x, x ∈ VocabularyPage.vocabulary page →
                VocabEntry.token_id x = i →
                x = VocabEntry.mk i s (len s)).
Proof.
  intros registry. run_helper registry. intros i s Hi Hdec. split.
  - rewrite elem_of_page. simpl. unfold emitted. rewrite Hdec.
    rewrite <- str_in_spec. destruct (bool_decide_reflect (search = [])) as [Hs|Hs]; simpl.
    + split; [auto|]. intros _. split; [done|]. by apply list_elem_of_here.
    + destruct (str_in (lower search) (lower s)).
      * split; [auto|]. intros _. split; [done|]. by apply list_elem_of_here.
      * split; [intros [_ Hx]; inversion Hx | by intros [?|?]].
  - intros x Hx Hid. apply elem_of_page in Hx as [_ Hx].
    rewrite Hid in Hx. unfold emitted in Hx. rewrite Hdec in Hx.
    destruct (_ || _); [|inversion Hx].
    by apply list_elem_of_singleton in Hx.
Qed.

(** C5. With [start >= 0] and [limit > 0] the page has at most [limit]
    entries, every [token_id] lies in [start, min(start+limit, vocabSize)),
    and the [token_id]s are strictly ascending; and for a vocabulary of
    at least 5 entries, [vocabulary(start=0, limit=5, search="")] is
    exactly 5 entries with the IDs 0, 1, 2, 3, 4 in this order. *)
Theorem page_bounds_and_order encoding :
  get_encoding cl100k_base_name = Ok encoding →
  (∀ start limit search,
     0 ≤ start → 0 < limit →
     ∃ page, helper start limit search = Ok page
       ∧ len (VocabularyPage.vocabulary page) ≤ limit
       ∧ VocabularyPage.count page = len (VocabularyPage.vocabulary page)
       ∧ Forall (λ x, start ≤ VocabEntry.token_id x
                      < Z.min (start + limit) (n_vocab encoding))
                (VocabularyPage.vocabulary page)
       ∧ StronglySorted Z.lt
           (VocabEntry.token_id <$> VocabularyPage.vocabulary page))
  ∧ (5 ≤ n_vocab encoding →
     ∃ page, helper 0 5 [] = Ok page
       ∧ VocabularyPage.count page = 5
       ∧ VocabEntry.token_id <$> VocabularyPage.vocabulary page = [0; 1; 2; 3; 4]).
Proof.
  intros registry. split.
  - intros start limit search Hstart Hlimit.
    run_helper registry.
    pose proof (emitted_ids_sublist lower encoding search
      (range start (Z.min (start + limit) (n_vocab encoding)))) as Hsub.
    repeat split.
    + apply sublist_length in Hsub. rewrite length_fmap in Hsub.
      pose proof (range_length start (Z.min (start + limit) (n_vocab encoding))).
      unfold len in *. lia.
    + apply Forall_forall. intros x Hx. by apply elem_of_page in Hx as [Hx _].
    + eapply StronglySorted_sublist; [exact Hsub|]. apply seqZ_ascending.
  - intros Hn. run_helper registry.
    replace (Z.min (0 + 5) (n_vocab encoding)) with 5 by lia.
    assert (VocabEntry.token_id <$> (range 0 5 ≫= emitted lower encoding [])
            = [0; 1; 2; 3; 4]) as Hids by apply emitted_empty_search_ids.
    split; [|done]. unfold len. by rewrite <- (length_fmap VocabEntry.token_id), Hids.
Qed.

(** C10. The endpoint takes a negative [start] as it comes: with an
    encoder that refuses negative IDs and an empty search, it answers
    normally, reports [showing_start = start], and lists for every
    negative ID of the scanned window a placeholder (marker string
    ['[SPECIAL_TOKEN]'], length 0) whose [token_id] is that negative ID. *)
Theorem negative_start_is_served encoding start limit :
  get_encoding cl100k_base_name = Ok encoding →
  (∀ i, i < 0 → ∃ e, decode encoding [i] = Raise e) →
  start < 0 →
  ∃ page,
    get_vocabulary get_encoding lower (VocabularyRequest.mk start limit [])
    = Success page
    ∧ VocabularyPage.showing_start page = start
    ∧ ∀ i, start ≤ i < Z.min (start + limit) (n_vocab encoding) → i < 0 →
        ∃ x, x ∈ VocabularyPage.vocabulary page
          ∧ VocabEntry.token_id x = i
          ∧ VocabEntry.token_id x < 0
          ∧ VocabEntry.token_string x = str_of_string "[SPECIAL_TOKEN]"
          ∧ VocabEntry.length x = 0.
Proof.
  intros registry Hneg Hstart. unfold get_vocabulary. simpl.
  run_helper registry. split; [done|].
  intros i Hi Hi0. exists (placeholder i). repeat split; try done.
  apply elem_of_page. simpl. split; [done|].
  unfold emitted. destruct (Hneg i Hi0) as [e ->]. simpl.
  by apply list_elem_of_here.
Qed.

End PageBuilder.

(** ** The tokenize service *)

Lemma comprehension_Forall2 {A B} (f : A → result B) xs ys :
  comprehension f xs = Ok ys ↔ Forall2 (λ x y, f x = Ok y) xs ys.
Proof.
  split.
  - revert ys. induction xs as [|x xs IH]; intros ys; simpl.
    + intros [= <-]. constructor.
    + destruct (f x) as [y|e] eqn:Hfx; simpl; [|done].
      destruct (comprehension f xs) as [ys'|e]; simpl; [|done].
      intros [= <-]. constructor; [done | by apply IH].
  - induction 1 as [|x y xs ys Hxy _ IH]; simpl; [done|].
    by rewrite Hxy, IH.
Qed.

Lemma comprehension_ok {A B} (f : A → result B) xs :
  Forall (λ x, ∃ y, f x = Ok y) xs → ∃ ys, comprehension f xs = Ok ys.
Proof.
  induction 1 as [|x xs [y Hy] _ [ys Hys]]; simpl; [by eexists|].
  rewrite Hy, Hys. by eexists.
Qed.

Lemma for_each_append_detail items token_details :
  for_each append_detail items token_details
  = (ds ← comprehension detail_of items; mret (token_details ++ ds)).
Proof.
  revert token_details.
  induction items as [|[idx [token_id token_str]] items IH];
    intros token_details; simpl.
  - by rewrite app_nil_r.
  - destruct (utf8_encode token_str) as [encoded|e]; simpl; [|done].
    rewrite IH. destruct (comprehension detail_of items); simpl; [|done].
    by rewrite <- app_assoc.
Qed.

Lemma enumerate_from_cons {A} (k : Z) (x : A) (xs : list A) :
  zip (seqZ k (len (x :: xs))) (x :: xs) = (k, x) :: zip (seqZ (k + 1) (len xs)) xs.
Proof.
  unfold len. rewrite seqZ_cons by (simpl; lia). simpl. do 3 f_equal; lia.
Qed.

(** The records built from the enumerated items: one per item, numbered
    from [k + 1], each with the item's token and string and the length
    of the string's UTF-8 form. *)
Lemma details_of_items (k : Z) (items : list (Z * str)) ds :
  comprehension detail_of (zip (seqZ k (len items)) items) = Ok ds →
  TokenDetail.position <$> ds = seqZ (k + 1) (len items)
  ∧ Forall2 (λ item d, ∃ bs,
               utf8_encode item.2 = Ok bs
               ∧ TokenDetail.token_id d = item.1
               ∧ TokenDetail.token_string d = item.2
               ∧ TokenDetail.byte_length d = len bs) items ds.
Proof.
  revert k ds. induction items as [|[token_id token_str] items IH]; intros k ds.
  - simpl. intros [= <-]. split; [by rewrite seqZ_nil | constructor].
  - rewrite enumerate_from_cons. simpl.
    destruct (utf8_encode token_str) as [encoded|e] eqn:Henc; simpl; [|done].
    destruct (comprehension detail_of _) as [ds'|e] eqn:Hds; simpl; [|done].
    intros [= <-]. apply IH in Hds as [Hpos Hall]. split.
    + rewrite fmap_cons, Hpos. unfold len.
      rewrite (seqZ_cons (k + 1)) by (simpl; lia). simpl. do 2 f_equal. lia.
    + constructor; [|done]. by exists encoded.
Qed.

Lemma details_of_items_ok (k : Z) (items : list (Z * str)) :
  Forall (λ item, ∃ bs, utf8_encode item.2 = Ok bs) items →
  ∃ ds, comprehension detail_of (zip (seqZ k (len items)) items) = Ok ds.
Proof.
  revert k. induction items as [|[token_id token_str] items IH]; intros k Hall.
  - by eexists.
  - apply Forall_cons in Hall as [[bs Hbs] Hall]. simpl in Hbs.
    rewrite enumerate_from_cons. simpl. rewrite Hbs. simpl.
    destruct (IH (k + 1) Hall) as [ds ->]. by eexists.
Qed.

Section Tokenize.

Variable encoding_for_model : str → result Encoding.

Local Abbreviation helper := (tokenize_text_helper encoding_for_model).

(** When the model resolves, the text encodes and every token of the
    sequence is reportable, the service returns, and its result is made
    of the token sequence, the per-token decodes and one record per
    token. *)
Lemma tokenize_text_helper_ok encoding text model toks :
  encoding_for_model model = Ok encoding →
  encode encoding text = Ok toks →
  Forall (reportable encoding) toks →
  ∃ strs ds,
    helper text model = Ok (TokenizeResult.mk toks strs (len toks) ds model text)
    ∧ Forall2 (λ t s, decode encoding [t] = Ok s) toks strs
    ∧ TokenDetail.position <$> ds = seqZ 1 (len toks)
    ∧ Forall2 (λ item d, ∃ bs,
                 utf8_encode item.2 = Ok bs
                 ∧ TokenDetail.token_id d = item.1
                 ∧ TokenDetail.token_string d = item.2
                 ∧ TokenDetail.byte_length d = len bs) (zip toks strs) ds.
Proof.
  intros Hmodel Hencode Htoks. unfold tokenize_text_helper.
  rewrite Hmodel. simpl. rewrite Hencode. simpl.
  destruct (comprehension_ok (λ token, decode encoding [token]) toks) as [strs Hstrs].
  { apply Forall_forall. intros t Ht. rewrite Forall_forall in Htoks.
    destruct (Htoks t Ht) as (s & bs & Hs & _). eauto. }
  rewrite Hstrs. simpl. pose proof Hstrs as Hdec.
  apply comprehension_Forall2 in Hdec.
  assert (length (zip toks strs) = length toks) as Hlen.
  { rewrite length_zip_with. apply Forall2_length in Hdec. lia. }
  destruct (details_of_items_ok 0 (zip toks strs)) as [ds Hds].
  { clear Hstrs Hlen Hencode. induction Hdec as [|t s toks strs Hts Hdec IH]; [constructor|].
    apply Forall_cons in Htoks as [(s' & bs & Hs' & Hbs) Htoks].
    simpl. constructor; [|by apply IH]. simpl. exists bs. congruence. }
  rewrite for_each_append_detail. unfold enumerate. rewrite Hds. simpl.
  exists strs, ds. split; [done|]. split; [done|].
  apply details_of_items in Hds as [Hpos Hall].
  unfold len in *. rewrite Hlen in Hpos. done.
Qed.

(** Conversely the service returns only then: an encoder call that
    raises, or a string without UTF-8 form, makes the helper raise. *)
Lemma tokenize_text_helper_returns encoding text model r :
  encoding_for_model model = Ok encoding →
  helper text model = Ok r →
  encode encoding text = Ok (TokenizeResult.tokens r)
  ∧ Forall (reportable encoding) (TokenizeResult.tokens r).
Proof.
  intros Hmodel. unfold tokenize_text_helper. rewrite Hmodel. simpl.
  destruct (encode encoding text) as [toks|e]; simpl; [|done].
  destruct (comprehension _ toks) as [strs|e] eqn:Hstrs; simpl; [|done].
  rewrite for_each_append_detail. unfold enumerate.
  destruct (comprehension detail_of _) as [ds|e] eqn:Hds; simpl; [|done].
  intros [= <-]. simpl. split; [done|].
  apply comprehension_Forall2 in Hstrs. apply details_of_items in Hds as [_ Hall].
  clear Hmodel. revert ds Hall.
  induction Hstrs as [|t s toks strs Hts _ IH]; intros ds Hall; [constructor|].
  simpl in Hall. inversion Hall as [|? d ? ds' (bs & Hbs & _) Hall']; subst.
  constructor; [by exists s, bs | eauto].
Qed.

End Tokenize.

Lemma zip_lookup_Forall2 {A B} (R : A → B → Prop) (xs : list A) (ys : list B) i x :
  Forall2 R xs ys → xs !! i = Some x →
  ∃ y, ys !! i = Some y ∧ zip xs ys !! i = Some (x, y) ∧ R x y.
Proof.
  intros HR. revert i. induction HR as [|x' y' xs ys Hxy _ IH]; intros i Hi.
  - by rewrite lookup_nil in Hi.
  - destruct i as [|i]; simpl in *.
    + injection Hi as ->. eauto.
    + by apply IH.
Qed.

(** *** UTF-8: decoding what was encoded *)

Lemma lor_disjoint (a k x : N) :
  (x < 2 ^ k)%N → N.lor (a * 2 ^ k) x = (a * 2 ^ k + x)%N.
Proof.
  intros Hx.
  assert (N.land (a * 2 ^ k) x = 0%N) as Hland.
  { apply N.bits_inj. intros n. rewrite N.land_spec, N.bits_0.
    destruct (N.lt_ge_cases n k) as [Hn|Hn].
    - by rewrite N.mul_pow2_bits_low.
    - rewrite <- (N.mod_small x (2 ^ k)) by done.
      by rewrite N.mod_pow2_bits_high, andb_false_r. }
  by rewrite N.add_nocarry_lxor, N.lxor_lor.
Qed.

(** Linear arithmetic with quotients and remainders by constants. *)
Ltac euclid := zify; Z.to_euclidean_division_equations; lia.

(** Decides the comparison at the head of the test of the goal's [if]. *)
Ltac head_atom t :=
  lazymatch t with
  | andb ?a _ => head_atom a
  | (if ?a then _ else _) => head_atom a
  | N.ltb ?a ?b => destruct (N.ltb_spec a b); try lia
  | N.leb ?a ?b => destruct (N.leb_spec a b); try lia
  | N.eqb ?a ?b => destruct (N.eqb_spec a b); try lia
  end.

Ltac head_test :=
  lazymatch goal with
  | |- (if ?t then _ else _) = _ => head_atom t; cbv iota; cbn [andb]
  end.

Lemma continuation_byte (x : N) :
  N.lor 0x80 (N.land x 0x3F) = (128 + x mod 64)%N.
Proof.
  change 0x3F%N with (N.ones 6). rewrite N.land_ones. change (2 ^ 6)%N with 64%N.
  apply (lor_disjoint 2 6). change (2 ^ 6)%N with 64%N. euclid.
Qed.

Lemma lead_byte_2 (c : N) :
  (c < 0x800)%N → N.lor 0xC0 (N.shiftr c 6) = (192 + c / 64)%N.
Proof.
  intros Hc. rewrite N.shiftr_div_pow2. change (2 ^ 6)%N with 64%N.
  apply (lor_disjoint 3 6). change (2 ^ 6)%N with 64%N. euclid.
Qed.

Lemma lead_byte_3 (c : N) :
  (c < 0x10000)%N → N.lor 0xE0 (N.shiftr c 12) = (224 + c / 4096)%N.
Proof.
  intros Hc. rewrite N.shiftr_div_pow2. change (2 ^ 12)%N with 4096%N.
  apply (lor_disjoint 14 4). change (2 ^ 4)%N with 16%N. euclid.
Qed.

Lemma lead_byte_4 (c : N) :
  (c < 0x110000)%N → N.lor 0xF0 (N.shiftr c 18) = (240 + c / 262144)%N.
Proof.
  intros Hc. rewrite N.shiftr_div_pow2. change (2 ^ 18)%N with 262144%N.
  apply (lor_disjoint 15 4). change (2 ^ 4)%N with 16%N. euclid.
Qed.

Lemma utf8_roundtrip_2 (c : N) (rest : list N) :
  (0x80 ≤ c < 0x800)%N →
  Demo.utf8_decode_replace
    (N.lor 0xC0 (N.shiftr c 6) :: N.lor 0x80 (N.land c 0x3F) :: rest)
  = c :: Demo.utf8_decode_replace rest.
Proof.
  intros Hc. rewrite lead_byte_2, continuation_byte by lia.
  assert (c = 64 * (c / 64) + c mod 64 ∧ c mod 64 < 64)%N
    as [Hsplit Hlo] by euclid.
  remember (c / 64)%N as hi eqn:Hhi. remember (c mod 64)%N as lo eqn:Hlo'.
  clear Hhi Hlo'.
  cbn [Demo.utf8_decode_replace]. unfold Demo.is_cont, Demo.low6.
  repeat head_test; f_equal.
  all: change 0x1F%N with (N.ones 5); change 0x3F%N with (N.ones 6).
  all: rewrite !N.land_ones, N.shiftl_mul_pow2.
  all: change (2 ^ 5)%N with 32%N; change (2 ^ 6)%N with 64%N.
  all: rewrite (lor_disjoint _ 6) by (change (2 ^ 6)%N with 64%N; euclid).
  all: change (2 ^ 6)%N with 64%N; euclid.
Qed.

Lemma utf8_roundtrip_3 (c : N) (rest : list N) :
  (0x800 ≤ c < 0x10000)%N → ¬ (0xD800 ≤ c ≤ 0xDFFF)%N →
  Demo.utf8_decode_replace
    (N.lor 0xE0 (N.shiftr c 12)
     :: N.lor 0x80 (N.land (N.shiftr c 6) 0x3F)
     :: N.lor 0x80 (N.land c 0x3F) :: rest)
  = c :: Demo.utf8_decode_replace rest.
Proof.
  intros Hc Hsurrogate. rewrite lead_byte_3, !continuation_byte by lia.
  rewrite N.shiftr_div_pow2. change (2 ^ 6)%N with 64%N.
  assert (c = 4096 * (c / 4096) + 64 * ((c / 64) mod 64) + c mod 64
          ∧ (c / 64) mod 64 < 64 ∧ c mod 64 < 64)%N
    as (Hsplit & Hmid & Hlo) by euclid.
  remember (c / 4096)%N as hi eqn:Hhi.
  remember ((c / 64) mod 64)%N as mid eqn:Hmid'.
  remember (c mod 64)%N as lo eqn:Hlo'. clear Hhi Hmid' Hlo'.
  cbn [Demo.utf8_decode_replace].
  unfold Demo.second_ok, Demo.is_cont, Demo.low6.
  repeat head_test; f_equal.
  all: change 0x0F%N with (N.ones 4); change 0x3F%N with (N.ones 6).
  all: rewrite !N.land_ones, !N.shiftl_mul_pow2.
  all: change (2 ^ 4)%N with 16%N; change (2 ^ 6)%N with 64%N;
       change (2 ^ 12)%N with 4096%N.
  all: rewrite (lor_disjoint _ 6) by (change (2 ^ 6)%N with 64%N; euclid).
  all: rewrite (lor_disjoint _ 12)
         by (change (2 ^ 6)%N with 64%N; change (2 ^ 12)%N with 4096%N; euclid).
  all: change (2 ^ 6)%N with 64%N; change (2 ^ 12)%N with 4096%N; euclid.
Qed.

Lemma utf8_roundtrip_4 (c : N) (rest : list N) :
  (0x10000 ≤ c < 0x110000)%N →
  Demo.utf8_decode_replace
    (N.lor 0xF0 (N.shiftr c 18)
     :: N.lor 0x80 (N.land (N.shiftr c 12) 0x3F)
     :: N.lor 0x80 (N.land (N.shiftr c 6) 0x3F)
     :: N.lor 0x80 (N.land c 0x3F) :: rest)
  = c :: Demo.utf8_decode_replace rest.
Proof.
  intros Hc. rewrite lead_byte_4, !continuation_byte by lia.
  rewrite !N.shiftr_div_pow2.
  change (2 ^ 6)%N with 64%N. change (2 ^ 12)%N with 4096%N.
  assert (c = 262144 * (c / 262144) + 4096 * ((c / 4096) mod 64)
              + 64 * ((c / 64) mod 64) + c mod 64
          ∧ (c / 4096) mod 64 < 64 ∧ (c / 64) mod 64 < 64 ∧ c mod 64 < 64)%N
    as (Hsplit & Hup & Hmid & Hlo) by euclid.
  remember (c / 262144)%N as hi eqn:Hhi.
  remember ((c / 4096) mod 64)%N as up eqn:Hup'.
  remember ((c / 64) mod 64)%N as mid eqn:Hmid'.
  remember (c mod 64)%N as lo eqn:Hlo'. clear Hhi Hup' Hmid' Hlo'.
  cbn [Demo.utf8_decode_replace].
  unfold Demo.second_ok, Demo.is_cont, Demo.low6.
  repeat head_test; f_equal.
  all: change 0x07%N with (N.ones 3); change 0x3F%N with (N.ones 6).
  all: rewrite !N.land_ones, !N.shiftl_mul_pow2.
  all: change (2 ^ 3)%N with 8%N; change (2 ^ 6)%N with 64%N;
       change (2 ^ 12)%N with 4096%N; change (2 ^ 18)%N with 262144%N.
  all: rewrite (lor_disjoint _ 6) by (change (2 ^ 6)%N with 64%N; euclid).
  all: rewrite (lor_disjoint _ 12)
         by (change (2 ^ 6)%N with 64%N; change (2 ^ 12)%N with 4096%N; euclid).
  all: rewrite (lor_disjoint _ 18)
         by (change (2 ^ 6)%N with 64%N; change (2 ^ 12)%N with 4096%N;
             change (2 ^ 18)%N with 262144%N; euclid).
  all: change (2 ^ 6)%N with 64%N; change (2 ^ 12)%N with 4096%N;
       change (2 ^ 18)%N with 262144%N; euclid.
Qed.

(** Decoding the UTF-8 form of a character gives the character back,
    whatever bytes follow. *)
Lemma utf8_roundtrip_char (c : N) (b rest : list N) :
  utf8_encode_char c = Ok b →
  Demo.utf8_decode_replace (b ++ rest) = c :: Demo.utf8_decode_replace rest.
Proof.
  unfold utf8_encode_char.
  destruct (N.ltb_spec c 0x80) as [H1|H1].
  { intros [= <-]. cbn [app Demo.utf8_decode_replace].
    by rewrite (proj2 (N.ltb_lt c 0x80) H1). }
  destruct (N.ltb_spec c 0x800) as [H2|H2].
  { intros [= <-]. by apply utf8_roundtrip_2. }
  destruct (N.ltb_spec c 0x10000) as [H3|H3].
  { destruct (N.leb_spec 0xD800 c) as [H4|H4];
      [destruct (N.leb_spec c 0xDFFF) as [H5|H5]|]; cbn [andb];
      [done| |]; intros [= <-]; apply utf8_roundtrip_3; lia. }
  destruct (N.ltb_spec c 0x110000) as [H4|H4]; [|done].
  intros [= <-]. by apply utf8_roundtrip_4.
Qed.

Lemma utf8_roundtrip (s : str) (bs rest : list N) :
  utf8_encode s = Ok bs →
  Demo.utf8_decode_replace (bs ++ rest) = s ++ Demo.utf8_decode_replace rest.
Proof.
  revert bs. induction s as [|c s IH]; intros bs; simpl.
  - by intros [= <-].
  - destruct (utf8_encode_char c) as [b|e] eqn:Hc; simpl; [|done].
    destruct (utf8_encode s) as [bs'|e]; simpl; [|done].
    intros [= <-]. rewrite <- app_assoc, (utf8_roundtrip_char _ _ _ Hc).
    by rewrite (IH bs' eq_refl).
Qed.

(** A sequence of tokens made of whole characters, under an encoder
    that decodes bytes: each token decodes to its string, and the
    sequence to the concatenation of the strings. *)
Lemma whole_tokens_decode encoding token_bytes toks :
  decodes_bytes encoding token_bytes →
  Forall (whole_characters token_bytes) toks →
  ∃ strs bss,
    comprehension token_bytes toks = Ok bss
    ∧ Forall2 (λ s bs, utf8_encode s = Ok bs) strs bss
    ∧ Forall2 (λ t s, decode encoding [t] = Ok s) toks strs
    ∧ Demo.utf8_decode_replace (concat bss) = concat strs.
Proof.
  intros Hdecode. induction 1 as [|t toks (s & bs & Ht & Hs) _ IH].
  - exists [], []. repeat split; constructor.
  - destruct IH as (strs & bss & Hbss & Hutf8 & Hsingle & Hconcat).
    exists (s :: strs), (bs :: bss). split; [|split; [|split]].
    + simpl. by rewrite Ht, Hbss.
    + by constructor.
    + constructor; [|done]. rewrite Hdecode. simpl. rewrite Ht. simpl.
      by rewrite app_nil_r, <- (app_nil_r bs), (utf8_roundtrip _ _ _ Hs), app_nil_r.
    + simpl. by rewrite (utf8_roundtrip _ _ _ Hs), Hconcat.
Qed.

Lemma Forall2_decode_unique encoding toks strs strs' :
  Forall2 (λ t s, decode encoding [t] = Ok s) toks strs →
  Forall2 (λ t s, decode encoding [t] = Ok s) toks strs' →
  strs = strs'.
Proof.
  intros H. revert strs'. induction H as [|t s toks strs Hts _ IH];
    intros strs' H'; inversion H' as [|? s' ? strs'' Hts' Hrest]; subst; [done|].
  rewrite Hts in Hts'. injection Hts' as <-. by rewrite (IH _ Hrest).
Qed.

Section TokenizeService.

Variable encoding_for_model : str → result Encoding.

Local Abbreviation helper := (tokenize_text_helper encoding_for_model).

(** C6. For a text the resolved encoder encodes into reportable tokens,
    the service returns; [count] is the length of the encoder's token
    sequence, [token_details] has [count] records, and their [position]
    fields are 1, 2, ..., [count] in order. *)
Theorem count_and_positions encoding text model toks :
  encoding_for_model model = Ok encoding →
  encode encoding text = Ok toks →
  Forall (reportable encoding) toks →
  ∃ r, helper text model = Ok r
    ∧ TokenizeResult.count r = len toks
    ∧ len (TokenizeResult.token_details r) = TokenizeResult.count r
    ∧ TokenDetail.position <$> TokenizeResult.token_details r
      = seqZ 1 (TokenizeResult.count r).
Proof.
  intros Hmodel Hencode Htoks.
  destruct (tokenize_text_helper_ok _ _ _ _ _ Hmodel Hencode Htoks)
    as (strs & ds & -> & _ & Hpos & _).
  eexists. split; [reflexivity|]. simpl. split; [done|]. split; [|done].
  unfold len. rewrite <- (length_fmap TokenDetail.position), Hpos, length_seqZ.
  unfold len. lia.
Qed.

(** C7. Every token is decoded on its own: the i-th entry of
    [token_strings] is the decode of the one-element sequence made of
    the i-th token, and the i-th record of [token_details] carries that
    token, that string and the length of the string's UTF-8 form. *)
Theorem tokens_decoded_individually encoding text model toks :
  encoding_for_model model = Ok encoding →
  encode encoding text = Ok toks →
  Forall (reportable encoding) toks →
  ∃ r, helper text model = Ok r
    ∧ TokenizeResult.tokens r = toks
    ∧ ∀ (i : nat) (t : Z),
        TokenizeResult.tokens r !! i = Some t →
        ∃ s bs d,
          decode encoding [t] = Ok s
          ∧ TokenizeResult.token_strings r !! i = Some s
          ∧ TokenizeResult.token_details r !! i = Some d
          ∧ TokenDetail.token_id d = t
          ∧ TokenDetail.token_string d = s
          ∧ utf8_encode s = Ok bs
          ∧ TokenDetail.byte_length d = len bs.
Proof.
  intros Hmodel Hencode Htoks.
  destruct (tokenize_text_helper_ok _ _ _ _ _ Hmodel Hencode Htoks)
    as (strs & ds & -> & Hdec & _ & Hds).
  eexists. split; [reflexivity|]. simpl. split; [done|]. intros i t Hi.
  destruct (zip_lookup_Forall2 _ _ _ _ _ Hdec Hi) as (s & Hs & Hitem & Hts).
  destruct (Forall2_lookup_l _ _ _ _ _ Hds Hitem) as (d & Hd & bs & Hbs & Hid & Hstr & Hlen).
  exists s, bs, d. done.
Qed.

(** C8, as the code has it. Under an encoder that decodes bytes, as
    [tiktoken] does, and for a text whose tokens are made of whole
    characters, the service returns the encoder's tokens with their
    individual decodes, and the concatenation of [token_strings] is the
    decode of the whole token sequence; it is the text itself when the
    bytes of the tokens are the UTF-8 form of the text. *)
Theorem concatenation_is_bulk_decode encoding token_bytes text model toks :
  encoding_for_model model = Ok encoding →
  encode encoding text = Ok toks →
  decodes_bytes encoding token_bytes →
  Forall (whole_characters token_bytes) toks →
  ∃ r, helper text model = Ok r
    ∧ TokenizeResult.tokens r = toks
    ∧ Forall2 (λ t s, decode encoding [t] = Ok s)
        toks (TokenizeResult.token_strings r)
    ∧ decode encoding toks = Ok (concat (TokenizeResult.token_strings r))
    ∧ (∀ bss,
         comprehension token_bytes toks = Ok bss →
         utf8_encode text = Ok (concat bss) →
         concat (TokenizeResult.token_strings r) = text).
Proof.
  intros Hmodel Hencode Hbytes Hwhole.
  destruct (whole_tokens_decode _ _ _ Hbytes Hwhole)
    as (strs & bss & Hbss & Hutf8 & Hsingle & Hconcat).
  assert (Forall (reportable encoding) toks) as Htoks.
  { clear Hencode Hbss Hconcat Hwhole. revert bss Hutf8.
    induction Hsingle as [|t s toks strs Hts _ IH]; intros bss Hutf8;
      [constructor|].
    inversion Hutf8 as [|? bs ? bss' Hs Hrest]; subst.
    constructor; [by exists s, bs | by eapply IH]. }
  destruct (tokenize_text_helper_ok _ _ _ _ _ Hmodel Hencode Htoks)
    as (strs' & ds & -> & Hdec & _).
  eexists. split; [reflexivity|]. simpl. split; [done|]. split; [done|].
  rewrite (Forall2_decode_unique _ _ _ _ Hdec Hsingle). split.
  - rewrite Hbytes, Hbss. simpl. by rewrite Hconcat.
  - intros bss' Hbss' Htext. rewrite Hbss in Hbss'. injection Hbss' as <-.
    rewrite <- Hconcat, <- (app_nil_r (concat bss)).
    by rewrite (utf8_roundtrip _ _ _ Htext), app_nil_r.
Qed.

End TokenizeService.

(** ** The stats reporter *)

(** C9, as the code has it. The stats reporter takes no request input
    and succeeds exactly when the active encoding can be loaded. It
    then returns the name and the vocabulary size of that encoding, the
    fixed description and the fixed list of supported models, the same
    for every configuration whose encoding has this name and size; when
    loading raises, the reporter raises that exception and the endpoint
    answers with status 500. *)
Theorem stats_are_fixed get_encoding u :
  ((∃ stats, get_stats_helper get_encoding u = Ok stats)
   ↔ ∃ encoding, get_encoding cl100k_base_name = Ok encoding)
  ∧ (∀ encoding,
       get_encoding cl100k_base_name = Ok encoding →
       get_stats_helper get_encoding u
       = Ok {| Stats.encoding_name := name encoding;
               Stats.total_tokens := n_vocab encoding;
               Stats.description :=
                 str_of_string "GPT-3.5/GPT-4 vocabulary (cl100k_base)";
               Stats.supported_models :=
                 str_of_string
                   <$> ["gpt-3.5-turbo"; "gpt-4"; "gpt-4-turbo"]%string |}
       ∧ ∃ stats, get_stats get_encoding u = Success stats
                  ∧ get_stats_helper get_encoding u = Ok stats)
  ∧ (∀ e,
       get_encoding cl100k_base_name = Raise e →
       get_stats_helper get_encoding u = Raise e
       ∧ get_stats get_encoding u = HTTPException 500 e)
  ∧ (∀ get_encoding' u' encoding encoding',
       get_encoding cl100k_base_name = Ok encoding →
       get_encoding' cl100k_base_name = Ok encoding' →
       name encoding = name encoding' →
       n_vocab encoding = n_vocab encoding' →
       get_stats_helper get_encoding u = get_stats_helper get_encoding' u').
Proof.
  unfold get_stats, get_stats_helper. split; [|split; [|split]].
  - destruct (get_encoding cl100k_base_name) as [encoding|e]; simpl; split.
    + eauto.
    + by eexists.
    + by intros [stats ?].
    + by intros [encoding ?].
  - intros encoding ->. simpl. split; [done | by eexists].
  - by intros e ->.
  - intros get_encoding' u' encoding encoding' -> -> Hname Hsize. simpl.
    by rewrite Hname, Hsize.
Qed.

(** ** The helpers at work on the two small encoders *)

Lemma byte_level_refuses_negative_ids (i : Z) :
  i < 0 → ∃ e, decode Demo.byte_level [i] = Raise e.
Proof.
  intros Hi. exists OverflowError. simpl. unfold Demo.byte_of_token.
  by rewrite (proj2 (Z.ltb_lt i 0) Hi).
Qed.

Lemma byte_level_table_bytes (tokens : list Z) :
  comprehension byte_level_table tokens
  = mbind (M := result) (λ bs : list N, mret ((λ b, [b]) <$> bs))
      (comprehension Demo.byte_of_token tokens).
Proof.
  induction tokens as [|t tokens IH]; [done|]. simpl. rewrite IH.
  unfold byte_level_table.
  destruct (Demo.byte_of_token t) as [b|e]; simpl; [|done].
  by destruct (comprehension Demo.byte_of_token tokens).
Qed.

Lemma byte_level_decodes_bytes : decodes_bytes Demo.byte_level byte_level_table.
Proof.
  intros tokens. rewrite byte_level_table_bytes. simpl.
  destruct (comprehension Demo.byte_of_token tokens) as [bs|e]; simpl; [|done].
  do 2 f_equal. induction bs as [|b bs IH]; [done|].
  rewrite fmap_cons, concat_cons. simpl. by rewrite <- IH.
Qed.

(** The window [250, 270) of a 260-entry vocabulary, searched for ["a"]. *)
Lemma window_is_reported_witness :
  ∃ page,
    get_vocabulary_helper Demo.get_encoding Demo.lower 250 20 [97%N] = Ok page
    ∧ VocabularyPage.total_size page = 260
    ∧ VocabularyPage.showing_start page = 250
    ∧ VocabularyPage.showing_end page
      = Z.min (250 + 20) (VocabularyPage.total_size page).
Proof.
  apply (window_is_reported Demo.get_encoding Demo.lower Demo.byte_level
           250 20 [97%N]); [reflexivity | lia | lia].
Defined.

(** [start = 300] is past the 260 entries: the claimed
    [showing_end = showing_start = start] fails, the page ends at 260. *)
Lemma start_past_the_end_counterexample :
  n_vocab Demo.byte_level ≤ 300
  ∧ Demo.get_encoding cl100k_base_name = Ok Demo.byte_level
  ∧ ¬ ∃ page,
        get_vocabulary_helper Demo.get_encoding Demo.lower 300 10 [] = Ok page
        ∧ VocabularyPage.vocabulary page = []
        ∧ VocabularyPage.showing_end page = 300
        ∧ VocabularyPage.showing_start page = 300.
Proof.
  split; [simpl; lia|]. split; [reflexivity|].
  intros (page & Hpage & _ & Hend & _).
  vm_compute in Hpage. injection Hpage as <-. discriminate Hend.
Qed.

Lemma start_past_the_end_witness :
  n_vocab Demo.byte_level ≤ 300
  ∧ ∃ page,
      get_vocabulary_helper Demo.get_encoding Demo.lower 300 10 [] = Ok page
      ∧ VocabularyPage.vocabulary page = []
      ∧ VocabularyPage.count page = 0
      ∧ VocabularyPage.showing_start page = 300
      ∧ VocabularyPage.showing_end page = Z.min (300 + 10) 260
      ∧ (0 ≤ 10 → VocabularyPage.showing_end page = 260)
      ∧ (0 ≤ 10 → VocabularyPage.showing_end page = 300 ↔ 300 = 260).
Proof.
  split; [simpl; lia|].
  apply (start_past_the_end Demo.get_encoding Demo.lower Demo.byte_level
           300 10 []); [reflexivity | simpl; lia].
Defined.

(** The window [254, 264) is cut to [254, 260) and holds the reserved
    IDs 256..259: the ID 257 is listed as a placeholder under the empty
    search and is not listed under the search ["a"]. *)
Lemma special_tokens_policy_witness :
  (∃ page,
     get_vocabulary_helper Demo.get_encoding Demo.lower 254 10 [] = Ok page
     ∧ VocabEntry.mk 257 SPECIAL_TOKEN 0 ∈ VocabularyPage.vocabulary page)
  ∧ (∃ page,
       get_vocabulary_helper Demo.get_encoding Demo.lower 254 10 [97%N] = Ok page
       ∧ VocabEntry.mk 257 SPECIAL_TOKEN 0 ∉ VocabularyPage.vocabulary page).
Proof.
  split.
  - destruct (special_tokens_policy Demo.get_encoding Demo.lower Demo.byte_level
                254 10 [] eq_refl) as (page & Hpage & Hwindow & _).
    exists page. split; [exact Hpage|].
    destruct (Hwindow 257 KeyError) as [Hiff _]; [simpl; lia | reflexivity |].
    by apply Hiff.
  - destruct (special_tokens_policy Demo.get_encoding Demo.lower Demo.byte_level
                254 10 [97%N] eq_refl) as (page & Hpage & Hwindow & _).
    exists page. split; [exact Hpage|]. intros Hin.
    destruct (Hwindow 257 KeyError) as [Hiff _]; [simpl; lia | reflexivity |].
    apply Hiff in Hin. discriminate Hin.
Defined.

(** The window [60, 100), searched for ["A"]: the ID 97, which decodes
    to ["a"], is listed with its string and length 1; the ID 98, which
    decodes to ["b"], is not. *)
Lemma decoded_tokens_filter_witness :
  ∃ page,
    get_vocabulary_helper Demo.get_encoding Demo.lower 60 40 [65%N] = Ok page
    ∧ VocabEntry.mk 97 [97%N] 1 ∈ VocabularyPage.vocabulary page
    ∧ VocabEntry.mk 98 [98%N] 1 ∉ VocabularyPage.vocabulary page.
Proof.
  destruct (decoded_tokens_filter Demo.get_encoding Demo.lower Demo.byte_level
              60 40 [65%N] eq_refl) as (page & Hpage & Hwindow).
  exists page. split; [exact Hpage|]. split.
  - destruct (Hwindow 97 [97%N]) as [Hiff _]; [simpl; lia | reflexivity |].
    apply Hiff. right. exists [], []. reflexivity.
  - intros Hin.
    destruct (Hwindow 98 [98%N]) as [Hiff _]; [simpl; lia | reflexivity |].
    apply Hiff in Hin.
    destruct Hin as [Hempty | (pre & post & Hsub)]; [discriminate|].
    destruct pre as [|c pre]; [discriminate|].
    destruct pre; discriminate.
Defined.

Lemma page_bounds_and_order_witness :
  (∃ page,
     get_vocabulary_helper Demo.get_encoding Demo.lower 60 40 [65%N] = Ok page
     ∧ len (VocabularyPage.vocabulary page) ≤ 40
     ∧ VocabularyPage.count page = len (VocabularyPage.vocabulary page)
     ∧ Forall (λ x, 60 ≤ VocabEntry.token_id x < Z.min (60 + 40) 260)
              (VocabularyPage.vocabulary page)
     ∧ StronglySorted Z.lt
         (VocabEntry.token_id <$> VocabularyPage.vocabulary page))
  ∧ (∃ page,
       get_vocabulary_helper Demo.get_encoding Demo.lower 0 5 [] = Ok page
       ∧ VocabularyPage.count page = 5
       ∧ VocabEntry.token_id <$> VocabularyPage.vocabulary page = [0; 1; 2; 3; 4]).
Proof.
  destruct (page_bounds_and_order Demo.get_encoding Demo.lower Demo.byte_level)
    as [Hpage Hfive]; [reflexivity|].
  split.
  - apply (Hpage 60 40 [65%N]); lia.
  - apply Hfive. simpl. lia.
Defined.

(** The text ["é!"] under the byte-level encoder: three tokens. *)
Lemma count_and_positions_witness :
  ∃ r,
    tokenize_text_helper Demo.encoding_for_model [233%N; 33%N] Demo.gpt_4 = Ok r
    ∧ TokenizeResult.count r = 3
    ∧ len (TokenizeResult.token_details r) = TokenizeResult.count r
    ∧ TokenDetail.position <$> TokenizeResult.token_details r
      = seqZ 1 (TokenizeResult.count r).
Proof.
  apply (count_and_positions Demo.encoding_for_model Demo.byte_level
           [233%N; 33%N] Demo.gpt_4 [195; 169; 33]); [reflexivity | reflexivity |].
  repeat constructor; do 2 eexists; split; reflexivity.
Defined.

Lemma tokens_decoded_individually_witness :
  ∃ r,
    tokenize_text_helper Demo.encoding_for_model [233%N; 33%N] Demo.gpt_4 = Ok r
    ∧ TokenizeResult.tokens r = [195; 169; 33]
    ∧ ∀ (i : nat) (t : Z),
        TokenizeResult.tokens r !! i = Some t →
        ∃ s bs d,
          decode Demo.byte_level [t] = Ok s
          ∧ TokenizeResult.token_strings r !! i = Some s
          ∧ TokenizeResult.token_details r !! i = Some d
          ∧ TokenDetail.token_id d = t
          ∧ TokenDetail.token_string d = s
          ∧ utf8_encode s = Ok bs
          ∧ TokenDetail.byte_length d = len bs.
Proof.
  apply (tokens_decoded_individually Demo.encoding_for_model Demo.byte_level
           [233%N; 33%N] Demo.gpt_4 [195; 169; 33]); [reflexivity | reflexivity |].
  repeat constructor; do 2 eexists; split; reflexivity.
Defined.

(** The text of the one character U+1F917 (an emoji, four bytes in
    UTF-8) is split over several tokens. The token sequence decodes to
    the text; each token alone decodes to U+FFFD, so the concatenation
    of [token_strings] holds replacement characters only. *)
Lemma concatenation_is_bulk_decode_counterexample :
  Demo.encoding_for_model Demo.gpt_4 = Ok Demo.byte_level
  ∧ decodes_bytes Demo.byte_level byte_level_table
  ∧ ∃ r,
      tokenize_text_helper Demo.encoding_for_model [0x1F917%N] Demo.gpt_4 = Ok r
      ∧ TokenizeResult.tokens r = [240; 159; 164; 151]
      ∧ decode Demo.byte_level (TokenizeResult.tokens r) = Ok [0x1F917%N]
      ∧ concat (TokenizeResult.token_strings r)
        = [0xFFFD; 0xFFFD; 0xFFFD; 0xFFFD]%N
      ∧ decode Demo.byte_level (TokenizeResult.tokens r)
        ≠ Ok (concat (TokenizeResult.token_strings r)).
Proof.
  split; [reflexivity|]. split; [exact byte_level_decodes_bytes|].
  eexists. split; [reflexivity|]. simpl. repeat split; done.
Qed.

(** The text ["Hi"] under the same encoder: both tokens are whole
    characters. *)
Lemma concatenation_is_bulk_decode_witness :
  ∃ r,
    tokenize_text_helper Demo.encoding_for_model [72%N; 105%N] Demo.gpt_4 = Ok r
    ∧ TokenizeResult.tokens r = [72; 105]
    ∧ Forall2 (λ t s, decode Demo.byte_level [t] = Ok s)
        [72; 105] (TokenizeResult.token_strings r)
    ∧ decode Demo.byte_level [72; 105]
      = Ok (concat (TokenizeResult.token_strings r))
    ∧ (∀ bss,
         comprehension byte_level_table [72; 105] = Ok bss →
         utf8_encode [72%N; 105%N] = Ok (concat bss) →
         concat (TokenizeResult.token_strings r) = [72%N; 105%N]).
Proof.
  apply (concatenation_is_bulk_decode Demo.encoding_for_model Demo.byte_level
           byte_level_table [72%N; 105%N] Demo.gpt_4 [72; 105]);
    [reflexivity | reflexivity | exact byte_level_decodes_bytes |].
  constructor; [by exists [72%N], [72%N]|].
  constructor; [by exists [105%N], [105%N] | constructor].
Defined.

(** A process in which the encoding cannot be loaded: the reporter
    raises and the endpoint answers 500. *)
Lemma stats_are_fixed_counterexample :
  get_stats_helper (λ _, Raise ValueError) tt = Raise ValueError
  ∧ get_stats (λ _, Raise ValueError) tt = HTTPException 500 ValueError
  ∧ ¬ ∃ stats, get_stats_helper (λ _, Raise ValueError) tt = Ok stats.
Proof.
  split; [reflexivity|]. split; [reflexivity|]. by intros [stats ?].
Qed.

Lemma stats_are_fixed_witness :
  get_stats_helper Demo.get_encoding tt = Ok
    {| Stats.encoding_name := str_of_string "cl100k_base";
       Stats.total_tokens := 260;
       Stats.description := str_of_string "GPT-3.5/GPT-4 vocabulary (cl100k_base)";
       Stats.supported_models :=
         str_of_string <$> ["gpt-3.5-turbo"; "gpt-4"; "gpt-4-turbo"]%string |}.
Proof.
  destruct (stats_are_fixed Demo.get_encoding tt) as (_ & Hloaded & _).
  apply (Hloaded Demo.byte_level). reflexivity.
Defined.

(** [start = -3], [limit = 5]: the window [-3, 2). *)
Lemma negative_start_is_served_witness :
  ∃ page,
    get_vocabulary Demo.get_encoding Demo.lower (VocabularyRequest.mk (-3) 5 [])
    = Success page
    ∧ VocabularyPage.showing_start page = -3
    ∧ ∀ i, -3 ≤ i < Z.min (-3 + 5) 260 → i < 0 →
        ∃ x, x ∈ VocabularyPage.vocabulary page
          ∧ VocabEntry.token_id x = i
          ∧ VocabEntry.token_id x < 0
          ∧ VocabEntry.token_string x = str_of_string "[SPECIAL_TOKEN]"
          ∧ VocabEntry.length x = 0.
Proof.
  apply (negative_start_is_served Demo.get_encoding Demo.lower Demo.byte_level
           (-3) 5); [reflexivity | exact byte_level_refuses_negative_ids | lia].
Defined.

(** A search for ["a"] in the window [60, 100) keeps ["A"] and ["a"]. *)
Example search_is_case_insensitive :
  get_vocabulary_helper Demo.get_encoding Demo.lower 60 40 [97%N]
  = Ok {| VocabularyPage.vocabulary :=
            [VocabEntry.mk 65 [65%N] 1; VocabEntry.mk 97 [97%N] 1];
          VocabularyPage.total_size := 260;
          VocabularyPage.showing_start := 60;
          VocabularyPage.showing_end := 100;
          VocabularyPage.count := 2;
          VocabularyPage.search_term := [97%N] |}.
Proof. reflexivity. Qed.

(** The reserved IDs 256..259 are listed under the empty search and
    hidden under any other, while the reported window stays the same. *)
Example reserved_ids_listed :
  get_vocabulary_helper Demo.get_encoding Demo.lower 256 10 []
  = Ok {| VocabularyPage.vocabulary :=
            [VocabEntry.mk 256 SPECIAL_TOKEN 0; VocabEntry.mk 257 SPECIAL_TOKEN 0;
             VocabEntry.mk 258 SPECIAL_TOKEN 0; VocabEntry.mk 259 SPECIAL_TOKEN 0];
          VocabularyPage.total_size := 260;
          VocabularyPage.showing_start := 256;
          VocabularyPage.showing_end := 260;
          VocabularyPage.count := 4;
          VocabularyPage.search_term := [] |}.
Proof. reflexivity. Qed.

Example reserved_ids_hidden :
  get_vocabulary_helper Demo.get_encoding Demo.lower 256 10 SPECIAL_TOKEN
  = Ok {| VocabularyPage.vocabulary := [];
          VocabularyPage.total_size := 260;
          VocabularyPage.showing_start := 256;
          VocabularyPage.showing_end := 260;
          VocabularyPage.count := 0;
          VocabularyPage.search_term := SPECIAL_TOKEN |}.
Proof. reflexivity. Qed.

(** An unknown model, and a text with a lone surrogate that the
    byte-level encoder cannot encode: the helper raises and the endpoint
    answers 400. *)
Example unknown_model_is_an_error :
  tokenize_text Demo.encoding_for_model (TokenizeRequest.mk [72%N; 105%N] [63%N])
  = HTTPException 400 KeyError.
Proof. reflexivity. Qed.

Example unencodable_text_is_an_error :
  tokenize_text Demo.encoding_for_model (TokenizeRequest.mk [0xD800%N] Demo.gpt_4)
  = HTTPException 400 UnicodeEncodeError.
Proof. reflexivity. Qed.

(** The decoder of the byte-level encoder on a four-byte character and
    on a truncated three-byte one. *)
Example utf8_decode_replace_samples :
  Demo.utf8_decode_replace [240; 159; 164; 151]%N = [0x1F917%N]
  ∧ Demo.utf8_decode_replace [226; 130]%N = [0xFFFD%N]
  ∧ Demo.utf8_decode_replace [226; 40; 161]%N = [0xFFFD; 40; 0xFFFD]%N
  ∧ utf8_encode [0x1F917%N] = Ok [240; 159; 164; 151]%N.
Proof. repeat split; reflexivity. Qed.

(** * Further properties of the backend *)

Lemma range_split (a b c : Z) : a ≤ b ≤ c → range a c = range a b ++ range b c.
Proof.
  intros Habc. unfold range.
  replace (c - a) with ((b - a) + (c - b)) by lia.
  rewrite seqZ_app by lia. do 2 f_equal. lia.
Qed.

Lemma bind_sublist {A B} (f g : A → list B) (xs : list A) :
  (∀ x, f x `sublist_of` g x) → (xs ≫= f) `sublist_of` (xs ≫= g).
Proof.
  intros Hfg. induction xs as [|x xs IH]; [constructor|].
  rewrite !bind_cons. by apply sublist_app.
Qed.

Lemma substring_trans (p q s : str) :
  (∃ pre post, q = pre ++ p ++ post) →
  (∃ pre post, s = pre ++ q ++ post) →
  ∃ pre post, s = pre ++ p ++ post.
Proof.
  intros (pre1 & post1 & ->) (pre2 & post2 & ->).
  exists (pre2 ++ pre1), (post1 ++ post2). by rewrite <- !app_assoc.
Qed.

Section Paging.

Variable get_encoding : str → result Encoding.
Variable lower : str → str.

Local Abbreviation helper := (get_vocabulary_helper get_encoding lower).

(** X1. Under the empty search the page lists every ID of the scanned
    window once and in order, decodable or not, so [count] is the width
    of the window. *)
Theorem empty_search_lists_window encoding start limit :
  get_encoding cl100k_base_name = Ok encoding →
  ∃ page, helper start limit [] = Ok page
    ∧ VocabEntry.token_id <$> VocabularyPage.vocabulary page
      = range start (VocabularyPage.showing_end page)
    ∧ VocabularyPage.count page
      = Z.max 0 (VocabularyPage.showing_end page - start).
Proof.
  intros registry. run_helper registry.
  pose proof (emitted_empty_search_ids lower encoding
    (range start (Z.min (start + limit) (n_vocab encoding)))) as Hids.
  split; [done|].
  rewrite <- range_length. unfold len.
  by rewrite <- (length_fmap VocabEntry.token_id), Hids.
Qed.

(** X2. Pages concatenate: for [l1, l2 >= 0] the page of [l1 + l2] IDs
    from [start] is the page of [l1] IDs from [start] followed by the
    page of [l2] IDs from [start + l1], and the counts add up, also
    where the end of the vocabulary cuts a window short. *)
Theorem pages_concatenate encoding start l1 l2 search :
  get_encoding cl100k_base_name = Ok encoding →
  0 ≤ l1 → 0 ≤ l2 →
  ∃ first second whole,
    helper start l1 search = Ok first
    ∧ helper (start + l1) l2 search = Ok second
    ∧ helper start (l1 + l2) search = Ok whole
    ∧ VocabularyPage.vocabulary whole
      = VocabularyPage.vocabulary first ++ VocabularyPage.vocabulary second
    ∧ VocabularyPage.count whole
      = VocabularyPage.count first + VocabularyPage.count second.
Proof.
  intros registry Hl1 Hl2.
  rewrite !(get_vocabulary_helper_eq _ _ _ registry).
  do 3 eexists. do 3 (split; [reflexivity|]). simpl.
  assert (range start (Z.min (start + (l1 + l2)) (n_vocab encoding))
          = range start (Z.min (start + l1) (n_vocab encoding))
            ++ range (start + l1) (Z.min (start + l1 + l2) (n_vocab encoding)))
    as ->.
  { destruct (decide (start + l1 ≤ n_vocab encoding)) as [Hin|Hout].
    - rewrite (Z.min_l (start + l1)) by lia.
      replace (start + (l1 + l2)) with (start + l1 + l2) by lia.
      apply range_split. lia.
    - rewrite !Z.min_r by lia.
      rewrite (range_nil (start + l1)) by lia. by rewrite app_nil_r. }
  rewrite bind_app. split; [done|]. unfold len. rewrite length_app. lia.
Qed.

(** X3. A search only filters: the page of any search string is a
    sublist of the page the empty search gives for the same window. *)
Theorem search_only_filters encoding start limit search :
  get_encoding cl100k_base_name = Ok encoding →
  ∃ page full,
    helper start limit search = Ok page
    ∧ helper start limit [] = Ok full
    ∧ VocabularyPage.vocabulary page `sublist_of` VocabularyPage.vocabulary full
    ∧ VocabularyPage.count page ≤ VocabularyPage.count full
    ∧ VocabularyPage.showing_end page = VocabularyPage.showing_end full.
Proof.
  intros registry. rewrite !(get_vocabulary_helper_eq _ _ _ registry).
  do 2 eexists. do 2 (split; [reflexivity|]). simpl.
  assert (∀ xs, (xs ≫= emitted lower encoding search)
                `sublist_of` (xs ≫= emitted lower encoding [])) as Hsub.
  { intros xs. apply bind_sublist. intros i. unfold emitted.
    destruct (decode encoding [i]); simpl.
    - destruct (_ || _); [done | apply sublist_nil_l].
    - destruct (bool_decide _); [done | apply sublist_nil_l]. }
  split; [apply Hsub|]. split; [|done].
  unfold len. apply Nat2Z.inj_le, sublist_length, Hsub.
Qed.

(** X4. The search ignores the case of the search string: two
    non-empty search strings with the same lower-cased form give the
    same entries. *)
Theorem search_term_case_is_ignored encoding start limit s1 s2 :
  get_encoding cl100k_base_name = Ok encoding →
  s1 ≠ [] → s2 ≠ [] → lower s1 = lower s2 →
  ∃ p1 p2,
    helper start limit s1 = Ok p1
    ∧ helper start limit s2 = Ok p2
    ∧ VocabularyPage.vocabulary p1 = VocabularyPage.vocabulary p2
    ∧ VocabularyPage.count p1 = VocabularyPage.count p2.
Proof.
  intros registry Hs1 Hs2 Hlower.
  rewrite !(get_vocabulary_helper_eq _ _ _ registry).
  do 2 eexists. do 2 (split; [reflexivity|]). simpl.
  assert (∀ i, emitted lower encoding s1 i = emitted lower encoding s2 i) as Heq.
  { intros i. unfold emitted.
    rewrite Hlower. by repeat case_bool_decide. }
  by rewrite (list_bind_ext _ (emitted lower encoding s2) _ _ Heq eq_refl).
Qed.

(** X5. A longer search string finds less: when the lower-cased [s1]
    occurs in the lower-cased [s2] and [s2] is not empty, the page for
    [s2] is a sublist of the page for [s1]. *)
Theorem longer_search_finds_less encoding start limit s1 s2 :
  get_encoding cl100k_base_name = Ok encoding →
  s2 ≠ [] →
  (∃ pre post, lower s2 = pre ++ lower s1 ++ post) →
  ∃ p1 p2,
    helper start limit s1 = Ok p1
    ∧ helper start limit s2 = Ok p2
    ∧ VocabularyPage.vocabulary p2 `sublist_of` VocabularyPage.vocabulary p1.
Proof.
  intros registry Hs2 Hsub.
  rewrite !(get_vocabulary_helper_eq _ _ _ registry).
  do 2 eexists. do 2 (split; [reflexivity|]). simpl.
  apply bind_sublist. intros i. unfold emitted.
  case_bool_decide as Hs2'; [done|]. clear Hs2'. simpl.
  destruct (decode encoding [i]) as [token_str|e]; [|apply sublist_nil_l].
  destruct (str_in (lower s2) (lower token_str)) eqn:Hin; [|apply sublist_nil_l].
  apply str_in_spec in Hin.
  pose proof (proj2 (str_in_spec _ _) (substring_trans _ _ _ Hsub Hin)) as ->.
  by rewrite orb_true_r.
Qed.

(** X6. A [limit] of zero or less scans nothing: the page is empty, no
    error is raised, and the reported end is not after the start. *)
Theorem nonpositive_limit_is_empty encoding start limit search :
  get_encoding cl100k_base_name = Ok encoding →
  limit ≤ 0 →
  ∃ page, helper start limit search = Ok page
    ∧ VocabularyPage.vocabulary page = []
    ∧ VocabularyPage.count page = 0
    ∧ VocabularyPage.showing_end page ≤ VocabularyPage.showing_start page.
Proof.
  intros registry Hlimit. run_helper registry.
  rewrite range_nil by lia. repeat split; try done. lia.
Qed.

(** X7. For a start inside the vocabulary and a limit that is not
    negative the reported window is well formed:
    [0 <= showing_start <= showing_end <= total_size], it is at most
    [limit] wide, and [count] is at most its width. *)
Theorem window_is_well_formed encoding start limit search :
  get_encoding cl100k_base_name = Ok encoding →
  0 ≤ start ≤ n_vocab encoding → 0 ≤ limit →
  ∃ page, helper start limit search = Ok page
    ∧ 0 ≤ VocabularyPage.showing_start page
    ∧ VocabularyPage.showing_start page ≤ VocabularyPage.showing_end page
    ∧ VocabularyPage.showing_end page ≤ VocabularyPage.total_size page
    ∧ VocabularyPage.showing_end page - VocabularyPage.showing_start page ≤ limit
    ∧ VocabularyPage.count page
      ≤ VocabularyPage.showing_end page - VocabularyPage.showing_start page.
Proof.
  intros registry Hstart Hlimit. run_helper registry.
  repeat split; try lia.
  pose proof (emitted_ids_sublist lower encoding search
    (range start (Z.min (start + limit) (n_vocab encoding)))) as Hsub.
  apply sublist_length in Hsub. rewrite length_fmap in Hsub.
  pose proof (range_length start (Z.min (start + limit) (n_vocab encoding))).
  unfold len in *. lia.
Qed.

(** X8. Every entry of a page comes from the encoder: its ID lies in
    the scanned window, and it is either the decode of its ID with the
    number of characters of that string, or, under the empty search
    only, the placeholder of an ID whose decode raises. *)
Theorem entries_come_from_the_encoder encoding start limit search :
  get_encoding cl100k_base_name = Ok encoding →
  ∃ page, helper start limit search = Ok page
    ∧ ∀ x, x ∈ VocabularyPage.vocabulary page →
        start ≤ VocabEntry.token_id x < VocabularyPage.showing_end page
        ∧ ((∃ s, decode encoding [VocabEntry.token_id x] = Ok s
                 ∧ VocabEntry.token_string x = s
                 ∧ VocabEntry.length x = len s)
           ∨ (∃ e, decode encoding [VocabEntry.token_id x] = Raise e
                   ∧ search = []
                   ∧ VocabEntry.token_string x = SPECIAL_TOKEN
                   ∧ VocabEntry.length x = 0)).
Proof.
  intros registry. run_helper registry. intros x Hx.
  apply elem_of_page in Hx as [Hwindow Hx]. split; [done|].
  unfold emitted in Hx.
  destruct (decode encoding [VocabEntry.token_id x]) as [token_str|e].
  - left. exists token_str. destruct (_ || _); [|inversion Hx].
    apply list_elem_of_singleton in Hx. by rewrite Hx.
  - right. exists e. case_bool_decide; [|inversion Hx].
    apply list_elem_of_singleton in Hx. by rewrite Hx.
Qed.

(** X9. The vocabulary endpoint fails only when the encoding cannot be
    loaded, and then with status 400 and that exception; a decode that
    raises never makes it fail. The stats endpoint fails in the same
    case, with status 500. *)
Theorem endpoints_fail_only_without_encoding request u status e :
  (get_vocabulary get_encoding lower request = HTTPException status e
   ↔ status = 400 ∧ get_encoding cl100k_base_name = Raise e)
  ∧ (get_stats get_encoding u = HTTPException status e
     ↔ status = 500 ∧ get_encoding cl100k_base_name = Raise e).
Proof.
  unfold get_vocabulary, get_stats, get_stats_helper. split.
  - destruct (get_encoding cl100k_base_name) as [encoding|e'] eqn:registry.
    + rewrite (get_vocabulary_helper_eq _ _ _ registry). simpl.
      split; [done | by intros [_ ?]].
    + unfold get_vocabulary_helper. rewrite registry. simpl.
      split; [by intros [= <- <-] | by intros [-> [= ->]]].
  - destruct (get_encoding cl100k_base_name) as [encoding|e']; simpl.
    + split; [done | by intros [_ ?]].
    + split; [by intros [= <- <-] | by intros [-> [= ->]]].
Qed.

(** X10. The two endpoints agree on the size of the vocabulary: the
    [total_tokens] of the stats is the [total_size] of every page. *)
Theorem stats_and_pages_agree encoding start limit search u :
  get_encoding cl100k_base_name = Ok encoding →
  ∃ stats page,
    get_stats get_encoding u = Success stats
    ∧ get_vocabulary get_encoding lower (VocabularyRequest.mk start limit search)
      = Success page
    ∧ Stats.total_tokens stats = VocabularyPage.total_size page
    ∧ VocabularyPage.showing_end page ≤ Stats.total_tokens stats.
Proof.
  intros registry. unfold get_stats, get_stats_helper, get_vocabulary. simpl.
  rewrite (get_vocabulary_helper_eq _ _ _ registry), registry. simpl.
  do 2 eexists. do 2 (split; [reflexivity|]). simpl. split; [done | lia].
Qed.

End Paging.

(** ** UTF-8 lengths *)

Lemma utf8_encode_char_length (c : N) (b : list N) :
  utf8_encode_char c = Ok b →
  (1 ≤ length b ≤ 4)%nat ∧ (length b = 1%nat ↔ (c < 128)%N).
Proof.
  unfold utf8_encode_char.
  destruct (N.ltb_spec c 0x80); [intros [= <-]; simpl; split; [lia|done]|].
  destruct (N.ltb_spec c 0x800); [intros [= <-]; simpl; split; [lia|split; [done|lia]]|].
  destruct (N.ltb_spec c 0x10000).
  { destruct (_ && _); [done|]. intros [= <-]. simpl. split; [lia|split; [done|lia]]. }
  destruct (N.ltb_spec c 0x110000); [|done].
  intros [= <-]. simpl. split; [lia|split; [done|lia]].
Qed.

Lemma utf8_encode_length (s : str) (bs : list N) :
  utf8_encode s = Ok bs →
  len s ≤ len bs ≤ 4 * len s
  ∧ (len bs = len s ↔ Forall (λ c, (c < 128)%N) s).
Proof.
  unfold len. revert bs. induction s as [|c s IH]; intros bs; simpl.
  - intros [= <-]. simpl. split; [lia|]. split; [constructor | done].
  - destruct (utf8_encode_char c) as [b|e] eqn:Hc; simpl; [|done].
    destruct (utf8_encode s) as [bs'|e]; simpl; [|done].
    intros [= <-]. rewrite length_app.
    destruct (utf8_encode_char_length _ _ Hc) as [Hb Hone].
    destruct (IH bs' eq_refl) as [Hbs Hall]. split; [lia|]. split.
    + intros Hlen. constructor; [apply Hone | apply Hall]; lia.
    + intros Hs. apply Forall_cons in Hs as [Hc' Hs].
      apply Hone in Hc'. apply Hall in Hs. lia.
Qed.

Lemma utf8_encode_app (s1 s2 : str) (b1 b2 : list N) :
  utf8_encode s1 = Ok b1 → utf8_encode s2 = Ok b2 →
  utf8_encode (s1 ++ s2) = Ok (b1 ++ b2).
Proof.
  revert b1. induction s1 as [|c s1 IH]; intros b1; simpl.
  - by intros [= <-].
  - destruct (utf8_encode_char c) as [b|e]; simpl; [|done].
    destruct (utf8_encode s1) as [bs|e]; simpl; [|done].
    intros [= <-] H2. rewrite (IH bs eq_refl H2). simpl. by rewrite app_assoc.
Qed.

Lemma comprehension_first_error {A B} (f : A → result B) before x after e :
  Forall (λ x', ∃ y, f x' = Ok y) before →
  f x = Raise e →
  comprehension f (before ++ x :: after) = Raise e.
Proof.
  intros Hbefore Hx. induction Hbefore as [|x' before [y Hy] _ IH]; simpl.
  - by rewrite Hx.
  - by rewrite Hy, IH.
Qed.

Section TokenizeMore.

Variable encoding_for_model : str → result Encoding.

Local Abbreviation helper := (tokenize_text_helper encoding_for_model).

(** What a result of the service is made of. *)
Lemma tokenize_text_helper_inv text model r :
  helper text model = Ok r →
  ∃ encoding,
    encoding_for_model model = Ok encoding
    ∧ encode encoding text = Ok (TokenizeResult.tokens r)
    ∧ Forall (reportable encoding) (TokenizeResult.tokens r)
    ∧ TokenizeResult.count r = len (TokenizeResult.tokens r)
    ∧ TokenizeResult.model r = model
    ∧ TokenizeResult.original_text r = text
    ∧ Forall2 (λ t s, decode encoding [t] = Ok s)
        (TokenizeResult.tokens r) (TokenizeResult.token_strings r)
    ∧ Forall2 (λ item d, ∃ bs,
                 utf8_encode item.2 = Ok bs
                 ∧ TokenDetail.token_id d = item.1
                 ∧ TokenDetail.token_string d = item.2
                 ∧ TokenDetail.byte_length d = len bs)
        (zip (TokenizeResult.tokens r) (TokenizeResult.token_strings r))
        (TokenizeResult.token_details r).
Proof.
  intros Hr.
  destruct (encoding_for_model model) as [encoding|e] eqn:Hmodel.
  2:{ unfold tokenize_text_helper in Hr. by rewrite Hmodel in Hr. }
  destruct (tokenize_text_helper_returns _ _ _ _ _ Hmodel Hr) as [Hencode Htoks].
  destruct (tokenize_text_helper_ok _ _ _ _ _ Hmodel Hencode Htoks)
    as (strs & ds & Hr' & Hdec & _ & Hds).
  rewrite Hr in Hr'. injection Hr' as Hr'.
  exists encoding. rewrite Hr' in *. simpl. done.
Qed.

(** The records of the table, seen from [token_strings]. *)
Lemma details_follow_strings text model r :
  helper text model = Ok r →
  Forall2 (λ s d, ∃ bs,
             utf8_encode s = Ok bs
             ∧ TokenDetail.token_string d = s
             ∧ TokenDetail.byte_length d = len bs)
    (TokenizeResult.token_strings r) (TokenizeResult.token_details r)
  ∧ TokenDetail.token_id <$> TokenizeResult.token_details r
    = TokenizeResult.tokens r.
Proof.
  intros Hr. destruct (tokenize_text_helper_inv _ _ _ Hr)
    as (encoding & _ & _ & _ & _ & _ & _ & Hdec & Hds).
  revert Hds. generalize (TokenizeResult.token_details r) as ds.
  induction Hdec as [|t s toks strs _ _ IH]; intros ds Hds; simpl in Hds.
  - inversion Hds. split; [constructor | done].
  - inversion Hds as [|? d ? ds' (bs & Hbs & Hid & Hstr & Hlen) Hds']; subst.
    destruct (IH _ Hds') as [Hall Hids]. split.
    + constructor; [by exists bs | done].
    + rewrite fmap_cons, Hids. simpl in Hid. by rewrite Hid.
Qed.

(** X11. The tokenize endpoint answers with a result exactly when the
    model resolves, the encoder encodes the text, and every token
    decodes on its own to a string with a UTF-8 form; every other
    request is answered with status 400. *)
Theorem tokenize_succeeds_iff request :
  ((∃ r, tokenize_text encoding_for_model request = Success r)
   ↔ ∃ encoding toks,
       encoding_for_model (TokenizeRequest.model request) = Ok encoding
       ∧ encode encoding (TokenizeRequest.text request) = Ok toks
       ∧ Forall (reportable encoding) toks)
  ∧ ∀ status e,
      tokenize_text encoding_for_model request = HTTPException status e →
      status = 400.
Proof.
  unfold tokenize_text. split; [split|].
  - intros [r Hr].
    destruct (helper _ _) as [r'|e] eqn:Hhelper; [|done].
    destruct (tokenize_text_helper_inv _ _ _ Hhelper)
      as (encoding & Hmodel & Hencode & Htoks & _). eauto.
  - intros (encoding & toks & Hmodel & Hencode & Htoks).
    destruct (tokenize_text_helper_ok _ _ _ _ _ Hmodel Hencode Htoks)
      as (strs & ds & -> & _). by eexists.
  - intros status e. destruct (helper _ _); [done|]. by intros [= <- _].
Qed.

(** X12. The exception of the first step that fails reaches the client
    unchanged, with status 400: that of the model lookup, whatever the
    text; else that of [encode]; else that of the first token whose
    decode raises, all tokens being decoded before any record is built. *)
Theorem tokenize_errors_surface text model e :
  (encoding_for_model model = Raise e →
   tokenize_text encoding_for_model (TokenizeRequest.mk text model)
   = HTTPException 400 e)
  ∧ (∀ encoding,
       encoding_for_model model = Ok encoding →
       encode encoding text = Raise e →
       tokenize_text encoding_for_model (TokenizeRequest.mk text model)
       = HTTPException 400 e)
  ∧ (∀ encoding before token after,
       encoding_for_model model = Ok encoding →
       encode encoding text = Ok (before ++ token :: after) →
       Forall (λ t, ∃ s, decode encoding [t] = Ok s) before →
       decode encoding [token] = Raise e →
       tokenize_text encoding_for_model (TokenizeRequest.mk text model)
       = HTTPException 400 e).
Proof.
  unfold tokenize_text, tokenize_text_helper. simpl. split; [|split].
  - by intros ->.
  - intros encoding Hmodel Hencode. rewrite Hmodel. simpl. by rewrite Hencode.
  - intros encoding before token after Hmodel Hencode Hbefore Htoken.
    rewrite Hmodel. simpl. rewrite Hencode. simpl.
    by rewrite (comprehension_first_error _ _ _ _ _ Hbefore Htoken).
Qed.

(** X13. In every record of the table [byte_length] is at least the
    number of characters of [token_string] and at most four times that
    number. *)
Theorem byte_length_bounds text model r :
  helper text model = Ok r →
  ∀ d, d ∈ TokenizeResult.token_details r →
    len (TokenDetail.token_string d) ≤ TokenDetail.byte_length d
    ∧ TokenDetail.byte_length d ≤ 4 * len (TokenDetail.token_string d).
Proof.
  intros Hr d Hd. destruct (details_follow_strings _ _ _ Hr) as [Hall _].
  apply list_elem_of_lookup in Hd as [i Hd].
  destruct (Forall2_lookup_r _ _ _ _ _ Hall Hd) as (s & _ & bs & Hbs & <- & ->).
  apply utf8_encode_length in Hbs. lia.
Qed.

(** X14. [byte_length] equals the number of characters of
    [token_string] exactly for the records whose string is pure ASCII. *)
Theorem byte_length_is_length_iff_ascii text model r :
  helper text model = Ok r →
  ∀ d, d ∈ TokenizeResult.token_details r →
    (TokenDetail.byte_length d = len (TokenDetail.token_string d)
     ↔ Forall (λ c, (c < 128)%N) (TokenDetail.token_string d)).
Proof.
  intros Hr d Hd. destruct (details_follow_strings _ _ _ Hr) as [Hall _].
  apply list_elem_of_lookup in Hd as [i Hd].
  destruct (Forall2_lookup_r _ _ _ _ _ Hall Hd) as (s & _ & bs & Hbs & <- & ->).
  by apply utf8_encode_length in Hbs as [_ ?].
Qed.

(** X15. The byte lengths of the table add up to the UTF-8 length of
    the concatenation of [token_strings]. *)
Theorem byte_lengths_add_up text model r :
  helper text model = Ok r →
  ∃ bs,
    utf8_encode (concat (TokenizeResult.token_strings r)) = Ok bs
    ∧ foldr Z.add 0 (TokenDetail.byte_length <$> TokenizeResult.token_details r)
      = len bs.
Proof.
  intros Hr. destruct (details_follow_strings _ _ _ Hr) as [Hall _].
  induction Hall as [|s d strs ds (bs & Hbs & _ & Hlen) _ (bss & Hbss & Hsum)].
  - by exists [].
  - exists (bs ++ bss). split; [by apply utf8_encode_app|].
    rewrite fmap_cons. simpl. rewrite Hsum, Hlen. unfold len.
    rewrite length_app. lia.
Qed.

(** X16. The result keeps its lists aligned and echoes the request:
    [token_strings] and [token_details] are as long as [tokens], the
    table repeats [tokens] and [token_strings] in order, and [model] and
    [original_text] are the request's. *)
Theorem result_lists_are_aligned text model r :
  helper text model = Ok r →
  len (TokenizeResult.token_strings r) = len (TokenizeResult.tokens r)
  ∧ len (TokenizeResult.token_details r) = len (TokenizeResult.tokens r)
  ∧ TokenDetail.token_id <$> TokenizeResult.token_details r
    = TokenizeResult.tokens r
  ∧ TokenDetail.token_string <$> TokenizeResult.token_details r
    = TokenizeResult.token_strings r
  ∧ TokenizeResult.model r = model
  ∧ TokenizeResult.original_text r = text.
Proof.
  intros Hr. destruct (details_follow_strings _ _ _ Hr) as [Hall Hids].
  destruct (tokenize_text_helper_inv _ _ _ Hr)
    as (encoding & _ & _ & _ & _ & Hmodel & Htext & Hdec & _).
  apply Forall2_length in Hdec. unfold len.
  assert (TokenDetail.token_string <$> TokenizeResult.token_details r
          = TokenizeResult.token_strings r) as Hstrs.
  { clear Hids Hdec. induction Hall as [|s d strs ds (bs & _ & Hs & _) _ IH]; [done|].
    by rewrite fmap_cons, IH, Hs. }
  repeat split; try done; [lia|].
  by rewrite <- (length_fmap TokenDetail.token_id), Hids.
Qed.

End TokenizeMore.

(** * The client's token display *)

(** Replacing one character by one character touches nothing else. *)
Lemma replace_single (old new : N) (s : str) :
  replace [old] [new] s = (λ c, if decide (c = old) then new else c) <$> s.
Proof.
  unfold replace. induction s as [|c s IH]; [done|].
  rewrite fmap_cons, <- IH. simpl.
  destruct (N.eqb_spec old c) as [->|Hne]; simpl.
  - by rewrite decide_True.
  - by rewrite decide_False.
Qed.

Lemma display_token_eq (token : str) :
  display_token token
  = (λ c, if decide (c = SPACE) then OPEN_BOX
          else if decide (c = NEWLINE) then RETURN_ARROW else c) <$> token.
Proof.
  unfold display_token. rewrite !replace_single, <- list_fmap_compose.
  apply list_fmap_ext. intros _ c _. simpl.
  destruct (decide (c = SPACE)) as [->|Hspace]; [done|].
  by destruct (decide (c = NEWLINE)).
Qed.

Lemma fold_left_append {A B} (f : B → list A) (xs : list B) (acc : list A) :
  fold_left (λ acc x, acc ++ f x) xs acc = acc ++ concat (f <$> xs).
Proof.
  revert acc. induction xs as [|x xs IH]; intros acc; simpl.
  - by rewrite app_nil_r.
  - by rewrite IH, <- app_assoc.
Qed.

(** X17. The displayed token has the characters of the token, one for
    one, with every space shown as U+2423 and every newline as U+21B5:
    it holds no space and no newline, and every other character, markup
    characters included, is shown as it is. *)
Theorem display_token_characters (token : str) :
  length (display_token token) = length token
  ∧ (∀ (i : nat) (c : N),
       token !! i = Some c →
       display_token token !! i
       = Some (if decide (c = SPACE) then OPEN_BOX
               else (if decide (c = NEWLINE) then RETURN_ARROW else c)))
  ∧ (SPACE ∉ display_token token)
  ∧ (NEWLINE ∉ display_token token).
Proof.
  rewrite display_token_eq. split; [by rewrite length_fmap|]. split.
  - intros i c Hi. unfold str in *. by rewrite list_lookup_fmap, Hi.
  - split; intros Hin; apply list_elem_of_fmap in Hin as (c & Hc & _);
      repeat case_decide; first [discriminate | congruence].
Qed.

(** X18. The markup of a token sequence is one [span] per token, in
    order, around the displayed token; it has 31 characters of markup
    per token besides the characters of the tokens, and no newline. *)
Theorem tokens_html_structure (token_strings : list str) :
  tokens_html token_strings
  = concat ((λ token, SPAN_OPEN ++ display_token token ++ SPAN_CLOSE)
              <$> token_strings)
  ∧ len (tokens_html token_strings)
    = 31 * len token_strings + len (concat token_strings)
  ∧ (NEWLINE ∉ tokens_html token_strings).
Proof.
  unfold tokens_html. rewrite fold_left_append, app_nil_l. split; [done|].
  induction token_strings as [|token strs [IHlen IHnl]].
  - split; [done | by apply not_elem_of_nil].
  - rewrite fmap_cons, !concat_cons. cbn beta.
    destruct (display_token_characters token) as (Hlen & _ & _ & Hnl).
    unfold len in *. split.
    + rewrite !length_app, Hlen, length_cons.
      assert (length SPAN_OPEN = 24%nat) as -> by done.
      assert (length SPAN_CLOSE = 7%nat) as -> by done. lia.
    + rewrite !elem_of_app. intros [[Hin | [Hin | Hin]] | Hin]; [|done| |done].
      * revert Hin. apply (bool_decide_unpack _). by vm_compute.
      * revert Hin. apply (bool_decide_unpack _). by vm_compute.
Qed.

(** * The further properties on the two small encoders *)

(** [str.replace] on patterns of several characters, without overlap,
    and on the empty pattern. *)
Example replace_samples :
  replace [97; 98]%N [88%N] [97; 97; 98; 97; 98]%N = [97; 88; 88]%N
  ∧ replace [97; 97]%N [98%N] [97; 97; 97]%N = [98; 97]%N
  ∧ replace [] [45%N] [97; 98; 99]%N = [45; 97; 45; 98; 45; 99; 45]%N
  ∧ replace [120%N] [] [97; 120; 98]%N = [97; 98]%N.
Proof. repeat split; reflexivity. Qed.

(** The token [" a\n<"] is shown as the open box, [a], the return
    arrow and [<]. *)
Example display_token_sample :
  display_token [32; 97; 10; 60]%N = [0x2423; 97; 0x21B5; 60]%N.
Proof. reflexivity. Qed.

Lemma empty_search_lists_window_witness :
  ∃ page,
    get_vocabulary_helper Demo.get_encoding Demo.lower 254 10 [] = Ok page
    ∧ VocabEntry.token_id <$> VocabularyPage.vocabulary page
      = range 254 (VocabularyPage.showing_end page)
    ∧ VocabularyPage.count page
      = Z.max 0 (VocabularyPage.showing_end page - 254).
Proof.
  apply (empty_search_lists_window Demo.get_encoding Demo.lower Demo.byte_level
           254 10); reflexivity.
Defined.

Lemma pages_concatenate_witness :
  ∃ first second whole,
    get_vocabulary_helper Demo.get_encoding Demo.lower 250 5 [] = Ok first
    ∧ get_vocabulary_helper Demo.get_encoding Demo.lower (250 + 5) 20 []
      = Ok second
    ∧ get_vocabulary_helper Demo.get_encoding Demo.lower 250 (5 + 20) []
      = Ok whole
    ∧ VocabularyPage.vocabulary whole
      = VocabularyPage.vocabulary first ++ VocabularyPage.vocabulary second
    ∧ VocabularyPage.count whole
      = VocabularyPage.count first + VocabularyPage.count second.
Proof.
  apply (pages_concatenate Demo.get_encoding Demo.lower Demo.byte_level
           250 5 20 []); [reflexivity | lia | lia].
Defined.

Lemma search_only_filters_witness :
  ∃ page full,
    get_vocabulary_helper Demo.get_encoding Demo.lower 60 40 [97%N] = Ok page
    ∧ get_vocabulary_helper Demo.get_encoding Demo.lower 60 40 [] = Ok full
    ∧ VocabularyPage.vocabulary page `sublist_of` VocabularyPage.vocabulary full
    ∧ VocabularyPage.count page ≤ VocabularyPage.count full
    ∧ VocabularyPage.showing_end page = VocabularyPage.showing_end full.
Proof.
  apply (search_only_filters Demo.get_encoding Demo.lower Demo.byte_level
           60 40 [97%N]); reflexivity.
Defined.

Lemma search_term_case_is_ignored_witness :
  ∃ p1 p2,
    get_vocabulary_helper Demo.get_encoding Demo.lower 60 40 [65%N] = Ok p1
    ∧ get_vocabulary_helper Demo.get_encoding Demo.lower 60 40 [97%N] = Ok p2
    ∧ VocabularyPage.vocabulary p1 = VocabularyPage.vocabulary p2
    ∧ VocabularyPage.count p1 = VocabularyPage.count p2.
Proof.
  apply (search_term_case_is_ignored Demo.get_encoding Demo.lower
           Demo.byte_level 60 40 [65%N] [97%N]);
    [reflexivity | discriminate | discriminate | reflexivity].
Defined.

Lemma longer_search_finds_less_witness :
  ∃ p1 p2,
    get_vocabulary_helper Demo.get_encoding Demo.lower 60 40 [97%N] = Ok p1
    ∧ get_vocabulary_helper Demo.get_encoding Demo.lower 60 40 [65; 98]%N
      = Ok p2
    ∧ VocabularyPage.vocabulary p2 `sublist_of` VocabularyPage.vocabulary p1.
Proof.
  apply (longer_search_finds_less Demo.get_encoding Demo.lower Demo.byte_level
           60 40 [97%N] [65; 98]%N); [reflexivity | discriminate |].
  exists [], [98%N]. reflexivity.
Defined.

Lemma nonpositive_limit_is_empty_witness :
  ∃ page,
    get_vocabulary_helper Demo.get_encoding Demo.lower 10 (-5) [] = Ok page
    ∧ VocabularyPage.vocabulary page = []
    ∧ VocabularyPage.count page = 0
    ∧ VocabularyPage.showing_end page ≤ VocabularyPage.showing_start page.
Proof.
  apply (nonpositive_limit_is_empty Demo.get_encoding Demo.lower
           Demo.byte_level 10 (-5) []); [reflexivity | lia].
Defined.

Lemma window_is_well_formed_witness :
  ∃ page,
    get_vocabulary_helper Demo.get_encoding Demo.lower 250 20 [97%N] = Ok page
    ∧ 0 ≤ VocabularyPage.showing_start page
    ∧ VocabularyPage.showing_start page ≤ VocabularyPage.showing_end page
    ∧ VocabularyPage.showing_end page ≤ VocabularyPage.total_size page
    ∧ VocabularyPage.showing_end page - VocabularyPage.showing_start page ≤ 20
    ∧ VocabularyPage.count page
      ≤ VocabularyPage.showing_end page - VocabularyPage.showing_start page.
Proof.
  apply (window_is_well_formed Demo.get_encoding Demo.lower Demo.byte_level
           250 20 [97%N]); [reflexivity | simpl; lia | lia].
Defined.

Lemma entries_come_from_the_encoder_witness :
  ∃ page,
    get_vocabulary_helper Demo.get_encoding Demo.lower 254 10 [] = Ok page
    ∧ ∀ x, x ∈ VocabularyPage.vocabulary page →
        254 ≤ VocabEntry.token_id x < VocabularyPage.showing_end page
        ∧ ((∃ s, decode Demo.byte_level [VocabEntry.token_id x] = Ok s
                 ∧ VocabEntry.token_string x = s
                 ∧ VocabEntry.length x = len s)
           ∨ (∃ e, decode Demo.byte_level [VocabEntry.token_id x] = Raise e
                   ∧ ([] : str) = []
                   ∧ VocabEntry.token_string x = SPECIAL_TOKEN
                   ∧ VocabEntry.length x = 0)).
Proof.
  apply (entries_come_from_the_encoder Demo.get_encoding Demo.lower
           Demo.byte_level 254 10 []); reflexivity.
Defined.

Lemma stats_and_pages_agree_witness :
  ∃ stats page,
    get_stats Demo.get_encoding tt = Success stats
    ∧ get_vocabulary Demo.get_encoding Demo.lower
        (VocabularyRequest.mk 250 20 [97%N]) = Success page
    ∧ Stats.total_tokens stats = VocabularyPage.total_size page
    ∧ VocabularyPage.showing_end page ≤ Stats.total_tokens stats.
Proof.
  apply (stats_and_pages_agree Demo.get_encoding Demo.lower Demo.byte_level
           250 20 [97%N] tt); reflexivity.
Defined.

(** An unknown model; a text with a lone surrogate; and an encoder
    that yields the reserved ID 257 after a token that decodes. *)
Lemma tokenize_errors_surface_witness :
  tokenize_text Demo.encoding_for_model (TokenizeRequest.mk [72%N] [63%N])
  = HTTPException 400 KeyError
  ∧ tokenize_text Demo.encoding_for_model (TokenizeRequest.mk [0xD800%N] Demo.gpt_4)
    = HTTPException 400 UnicodeEncodeError
  ∧ tokenize_text
      (λ _, Ok {| name := []; n_vocab := 260;
                  encode := λ _, Ok [72; 257; 105];
                  decode := decode Demo.byte_level |})
      (TokenizeRequest.mk [72%N] Demo.gpt_4)
    = HTTPException 400 KeyError.
Proof.
  split; [|split].
  - apply (tokenize_errors_surface Demo.encoding_for_model [72%N] [63%N] KeyError).
    reflexivity.
  - apply (tokenize_errors_surface Demo.encoding_for_model [0xD800%N] Demo.gpt_4
             UnicodeEncodeError) with Demo.byte_level; reflexivity.
  - eapply (tokenize_errors_surface _ [72%N] Demo.gpt_4 KeyError)
      with (before := [72]) (token := 257) (after := [105]);
      [reflexivity | reflexivity | | reflexivity].
    repeat constructor. by eexists.
Defined.

(** The text ["é!"] again: two tokens shown as U+FFFD, three bytes
    each, and ["!"], one byte. *)
Lemma byte_length_bounds_witness :
  ∃ r,
    tokenize_text_helper Demo.encoding_for_model [233%N; 33%N] Demo.gpt_4 = Ok r
    ∧ ∀ d, d ∈ TokenizeResult.token_details r →
        len (TokenDetail.token_string d) ≤ TokenDetail.byte_length d
        ∧ TokenDetail.byte_length d ≤ 4 * len (TokenDetail.token_string d).
Proof.
  eexists. split; [reflexivity|].
  apply (byte_length_bounds Demo.encoding_for_model [233%N; 33%N] Demo.gpt_4).
  reflexivity.
Defined.

Lemma byte_length_is_length_iff_ascii_witness :
  ∃ r,
    tokenize_text_helper Demo.encoding_for_model [233%N; 33%N] Demo.gpt_4 = Ok r
    ∧ ∀ d, d ∈ TokenizeResult.token_details r →
        (TokenDetail.byte_length d = len (TokenDetail.token_string d)
         ↔ Forall (λ c, (c < 128)%N) (TokenDetail.token_string d)).
Proof.
  eexists. split; [reflexivity|].
  apply (byte_length_is_length_iff_ascii Demo.encoding_for_model
           [233%N; 33%N] Demo.gpt_4).
  reflexivity.
Defined.

Lemma byte_lengths_add_up_witness :
  ∃ r,
    tokenize_text_helper Demo.encoding_for_model [233%N; 33%N] Demo.gpt_4 = Ok r
    ∧ ∃ bs,
        utf8_encode (concat (TokenizeResult.token_strings r)) = Ok bs
        ∧ foldr Z.add 0
            (TokenDetail.byte_length <$> TokenizeResult.token_details r)
          = len bs.
Proof.
  eexists. split; [reflexivity|].
  apply (byte_lengths_add_up Demo.encoding_for_model [233%N; 33%N] Demo.gpt_4).
  reflexivity.
Defined.

Lemma result_lists_are_aligned_witness :
  ∃ r,
    tokenize_text_helper Demo.encoding_for_model [233%N; 33%N] Demo.gpt_4 = Ok r
    ∧ len (TokenizeResult.token_strings r) = len (TokenizeResult.tokens r)
    ∧ len (TokenizeResult.token_details r) = len (TokenizeResult.tokens r)
    ∧ TokenDetail.token_id <$> TokenizeResult.token_details r
      = TokenizeResult.tokens r
    ∧ TokenDetail.token_string <$> TokenizeResult.token_details r
      = TokenizeResult.token_strings r
    ∧ TokenizeResult.model r = Demo.gpt_4
    ∧ TokenizeResult.original_text r = [233%N; 33%N].
Proof.
  eexists. split; [reflexivity|].
  apply (result_lists_are_aligned Demo.encoding_for_model [233%N; 33%N] Demo.gpt_4).
  reflexivity.
Defined.

(** * The client's form and the page builder *)

(** X19. Whatever the client's vocabulary form sends, an encoding of
    more than 100000 entries answers with a well-formed, non-empty
    window of at most 500 IDs and at most 500 entries; under the empty
    search the page is never empty. *)
Theorem client_requests_are_in_range get_encoding lower encoding request :
  get_encoding cl100k_base_name = Ok encoding →
  100000 < n_vocab encoding →
  client_can_send request →
  ∃ page,
    get_vocabulary get_encoding lower request = Success page
    ∧ 0 ≤ VocabularyPage.showing_start page
    ∧ VocabularyPage.showing_start page < VocabularyPage.showing_end page
    ∧ VocabularyPage.showing_end page ≤ VocabularyPage.total_size page
    ∧ VocabularyPage.showing_end page - VocabularyPage.showing_start page ≤ 500
    ∧ VocabularyPage.count page ≤ 500
    ∧ (VocabularyRequest.search request = [] → 1 ≤ VocabularyPage.count page).
Proof.
  intros registry Hsize [Hstart Hlimit]. unfold get_vocabulary.
  destruct request as [start limit search]. simpl in *.
  rewrite (get_vocabulary_helper_eq _ _ _ registry). simpl.
  eexists. split; [reflexivity|]. simpl.
  pose proof (range_length start (Z.min (start + limit) (n_vocab encoding))) as Hwidth.
  repeat split; try lia.
  - pose proof (emitted_ids_sublist lower encoding search
      (range start (Z.min (start + limit) (n_vocab encoding)))) as Hsub.
    apply sublist_length in Hsub. rewrite length_fmap in Hsub.
    unfold len in *. lia.
  - intros ->.
    pose proof (emitted_empty_search_ids lower encoding
      (range start (Z.min (start + limit) (n_vocab encoding)))) as Hids.
    apply (f_equal length) in Hids. rewrite length_fmap in Hids.
    unfold len in *. lia.
Qed.

(** An encoding of the size of [cl100k_base], asked for the last page
    the form can reach. *)
Lemma client_requests_are_in_range_witness :
  ∃ page,
    get_vocabulary
      (λ _, Ok {| name := cl100k_base_name; n_vocab := 100277;
                  encode := encode Demo.byte_level;
                  decode := decode Demo.byte_level |})
      Demo.lower (VocabularyRequest.mk 100000 500 [])
    = Success page
    ∧ 0 ≤ VocabularyPage.showing_start page
    ∧ VocabularyPage.showing_start page < VocabularyPage.showing_end page
    ∧ VocabularyPage.showing_end page ≤ VocabularyPage.total_size page
    ∧ VocabularyPage.showing_end page - VocabularyPage.showing_start page ≤ 500
    ∧ VocabularyPage.count page ≤ 500
    ∧ (([] : str) = [] → 1 ≤ VocabularyPage.count page).
Proof.
  eapply (client_requests_are_in_range _ Demo.lower _
            (VocabularyRequest.mk 100000 500 []));
    [reflexivity | simpl; lia | unfold client_can_send; simpl; lia].
Defined.

(** X20. Paging forward by the reported end neither skips nor repeats
    an entry: for [limit >= 0] a page followed by the page that starts
    at its [showing_end] is the page of twice the limit. *)
Theorem paging_by_showing_end get_encoding lower encoding start limit search :
  get_encoding cl100k_base_name = Ok encoding →
  0 ≤ limit →
  ∃ page next double,
    get_vocabulary_helper get_encoding lower start limit search = Ok page
    ∧ get_vocabulary_helper get_encoding lower
        (VocabularyPage.showing_end page) limit search = Ok next
    ∧ get_vocabulary_helper get_encoding lower start (2 * limit) search
      = Ok double
    ∧ VocabularyPage.vocabulary page ++ VocabularyPage.vocabulary next
      = VocabularyPage.vocabulary double.
Proof.
  intros registry Hlimit.
  rewrite !(get_vocabulary_helper_eq _ _ _ registry).
  do 3 eexists. split; [reflexivity|]. simpl.
  rewrite !(get_vocabulary_helper_eq _ _ _ registry).
  do 2 (split; [reflexivity|]). simpl. rewrite <- bind_app. f_equal.
  destruct (decide (start + limit ≤ n_vocab encoding)) as [Hin|Hout].
  - rewrite (Z.min_l (start + limit)) by lia. symmetry.
    replace (start + 2 * limit) with (start + limit + limit) by lia.
    apply range_split. lia.
  - rewrite (Z.min_r (start + limit)) by lia.
    rewrite (Z.min_r (n_vocab encoding + limit)) by lia.
    rewrite (Z.min_r (start + 2 * limit)) by lia.
    rewrite (range_nil (n_vocab encoding)) by lia. by rewrite app_nil_r.
Qed.

(** Two pages of four IDs, the second one cut short by the end of the
    260 entries. *)
Lemma paging_by_showing_end_witness :
  ∃ page next double,
    get_vocabulary_helper Demo.get_encoding Demo.lower 254 4 [] = Ok page
    ∧ get_vocabulary_helper Demo.get_encoding Demo.lower
        (VocabularyPage.showing_end page) 4 [] = Ok next
    ∧ get_vocabulary_helper Demo.get_encoding Demo.lower 254 (2 * 4) []
      = Ok double
    ∧ VocabularyPage.vocabulary page ++ VocabularyPage.vocabulary next
      = VocabularyPage.vocabulary double.
Proof.
  apply (paging_by_showing_end Demo.get_encoding Demo.lower Demo.byte_level
           254 4 []); [reflexivity | lia].
Defined.

(** The text ["Hi"] resolves, encodes and decodes, so the endpoint
    answers with a result. *)
Lemma tokenize_succeeds_iff_witness :
  ∃ r,
    tokenize_text Demo.encoding_for_model
      (TokenizeRequest.mk [72%N; 105%N] Demo.gpt_4) = Success r.
Proof.
  apply (tokenize_succeeds_iff Demo.encoding_for_model
           (TokenizeRequest.mk [72%N; 105%N] Demo.gpt_4)).
  exists Demo.byte_level, [72; 105]. split; [reflexivity|]. split; [reflexivity|].
  repeat constructor; do 2 eexists; split; reflexivity.
Defined.

(** The first character of [" a"] is shown as the open box. *)
Lemma display_token_characters_witness :
  display_token [32; 97]%N !! 0%nat = Some OPEN_BOX.
Proof.
  destruct (display_token_characters [32; 97]%N) as (_ & Hshown & _).
  apply (Hshown 0%nat 32%N). reflexivity.
Defined.
